(** * The reference MCP server: tool-calling agent loop and HTTP session routing

    A shallow embedding of
    - [tools/trigger-enhanced-sampling.ts]: the mock tool executor and the
      server-side agent loop of the [trigger-enhanced-sampling] tool;
    - [transports/streamableHttp.ts] and [transports/sse.ts]: the route
      handlers that keep the session-id to transport map;
    - the error middleware the routes end in.

    JavaScript strings are sequences of UTF-16 code units, numbers are
    rationals (the arithmetic of the loop counter is exact), thrown values
    are an explicit outcome, and everything the code calls but does not
    define (the client behind [sendRequest], [Math.random], the [Function]
    constructor, the SDK transports) is a parameter of the section it is
    used in. *)

From Stdlib Require Import ZArith NArith QArith Qround String Ascii List Lia.
From stdpp Require Import base option list gmap pretty.

Set Default Proof Using "Type".
Set Warnings "-register-all".
Local Open Scope Z_scope.

(** ** JavaScript strings *)

Abbreviation jsstring := (list N).

Definition js (s : string) : jsstring :=
  List.map N_of_ascii (list_ascii_of_string s).
Arguments js : simpl never.

(** Truthiness of a string: only the empty string is falsy. *)
Definition truthy (s : jsstring) : bool :=
  match s with [] => false | _ => true end.

(** [a.join(sep)] *)
Fixpoint join (sep : jsstring) (parts : list jsstring) : jsstring :=
  match parts with
  | [] => []
  | [p] => p
  | p :: rest => p ++ sep ++ join sep rest
  end.

Definition jsstring_eqb (a b : jsstring) : bool := bool_decide (a = b).

(** [s.includes(needle)] *)
Fixpoint starts_with (needle s : jsstring) : bool :=
  match needle, s with
  | [], _ => true
  | _ :: _, [] => false
  | a :: needle', b :: s' => (a =? b)%N && starts_with needle' s'
  end.

Fixpoint includes (s needle : jsstring) : bool :=
  starts_with needle s ||
  match s with
  | [] => false
  | _ :: s' => includes s' needle
  end.

(** Decimal rendering of an array length or an iteration number. *)
Definition Z_to_js (z : Z) : jsstring := js (pretty z).
Definition nat_to_js (n : nat) : jsstring := js (pretty n).

(** ** JSON values: the [unknown] payloads of tool inputs *)

Inductive JSValue :=
| JNull
| JBool (b : bool)
| JNum (q : Q)
| JStr (s : jsstring)
| JArr (items : list JSValue)
| JObj (fields : list (jsstring * JSValue)).

(** A parsed JSON object, as [Record<string, unknown>]. *)
Abbreviation JSObject := (list (jsstring * JSValue)).

(** [input.key]: an own property, or [undefined]. *)
Fixpoint get_prop (fields : JSObject) (key : jsstring) : option JSValue :=
  match fields with
  | [] => None
  | (k, v) :: rest => if jsstring_eqb k key then Some v else get_prop rest key
  end.

(** Thrown values. *)
Record Exn := { exn_name : jsstring; exn_code : option jsstring; exn_message : jsstring }.

Definition TypeError (msg : jsstring) : Exn :=
  {| exn_name := js "TypeError"; exn_code := None; exn_message := msg |}.

(** ** Messages of the sampling protocol *)

Inductive Role := user | assistant.

(** A [tool_use] block: the invocation of a tool. *)
Record ToolUse := { tu_name : jsstring; tu_id : jsstring; tu_input : JSObject }.

Inductive ContentBlock :=
| TextContent (text : jsstring)
| ImageContent (data mimeType : jsstring)
| AudioContent (data mimeType : jsstring)
| ToolUseContent (call : ToolUse)
| ToolResultContent (toolUseId : jsstring) (content : list jsstring).

(** [SamplingMessage["content"]]: one block or an array of blocks. *)
Inductive Content :=
| One (block : ContentBlock)
| Many (blocks : list ContentBlock).

Record SamplingMessage := { role : Role; content : Content }.

Inductive ToolChoiceMode := auto | required | none.

Record Tool := { tool_name : jsstring; tool_description : jsstring; tool_required : list jsstring }.

Definition sampleTools : list Tool :=
  [ {| tool_name := js "get_weather";
       tool_description := js "Get current weather for a city";
       tool_required := [js "city"] |};
    {| tool_name := js "calculate";
       tool_description := js "Perform a mathematical calculation";
       tool_required := [js "expression"] |};
    {| tool_name := js "get_time";
       tool_description := js "Get current time in a timezone";
       tool_required := [js "timezone"] |} ].

Record CreateMessageRequest := {
  messages : list SamplingMessage;
  systemPrompt : jsstring;
  maxTokens : Q;
  tools : option (list Tool);
  toolChoice : option ToolChoiceMode
}.

Inductive ResultSchema := CreateMessageResultSchema | CreateMessageResultWithToolsSchema.

Record CreateMessageResult := {
  stopReason : option jsstring;
  result_content : Content;
  result_model : jsstring
}.

(** ** Effects: the outside world, a log of what was asked of it, exceptions *)

Inductive Event :=
| EvSampling (request : CreateMessageRequest) (schema : ResultSchema)
| EvEvaluate (source : jsstring).

Inductive Outcome (A : Type) :=
| Returned (a : A)
| Threw (e : Exn)
| OutOfFuel.
Arguments Returned {A} a.
Arguments Threw {A} e.
Arguments OutOfFuel {A}.

Section Effects.
Context {World : Type}.

Record Machine := { world : World; log : list Event }.

Definition Eff (A : Type) : Type := Machine -> Outcome A * Machine.

Definition ret {A} (a : A) : Eff A := fun m => (Returned a, m).

Definition bind {A B} (c : Eff A) (k : A -> Eff B) : Eff B :=
  fun m =>
    match c m with
    | (Returned a, m') => k a m'
    | (Threw e, m') => (Threw e, m')
    | (OutOfFuel, m') => (OutOfFuel, m')
    end.

Definition throw {A} (e : Exn) : Eff A := fun m => (Threw e, m).

(** An operation of the language that gives a value or throws, and asks
    nothing of the world. *)
Definition completion {A} (r : Exn + A) : Eff A :=
  match r with
  | inl e => throw e
  | inr a => ret a
  end.

(** [try { body } catch { handler }] *)
Definition try_catch {A} (body : Eff A) (handler : Eff A) : Eff A :=
  fun m =>
    match body m with
    | (Threw _, m') => handler m'
    | r => r
    end.

Definition record (ev : Event) : Eff unit :=
  fun m => (Returned tt, {| world := world m; log := log m ++ [ev] |}).

(** A call into the host that may throw. *)
Definition host_call {A} (f : World -> (Exn + A) * World) : Eff A :=
  fun m =>
    match f (world m) with
    | (inr a, w) => (Returned a, {| world := w; log := log m |})
    | (inl e, w) => (Threw e, {| world := w; log := log m |})
    end.

(** The machine before anything was asked of the world. *)
Definition start (w : World) : Machine := {| world := w; log := [] |}.

(** A call into the host that cannot throw. *)
Definition host_pure {A} (f : World -> A * World) : Eff A :=
  fun m => let '(a, w) := f (world m) in (Returned a, {| world := w; log := log m |}).
End Effects.
Arguments Machine World : clear implicits.
Arguments Eff World A : clear implicits.

Notation "x <- c ;; k" := (bind c (fun x => k))
  (at level 100, c at next level, right associativity).
Notation "c ;;; k" := (bind c (fun _ => k))
  (at level 100, right associativity).

(** The sampling requests among the logged events, oldest first. *)
Definition sampling_requests (l : list Event) : list CreateMessageRequest :=
  omap (fun ev => match ev with EvSampling r _ => Some r | _ => None end) l.

Definition evaluated_sources (l : list Event) : list jsstring :=
  omap (fun ev => match ev with EvEvaluate s => Some s | _ => None end) l.

(** ** The mock tool executor ([executeMockTool]) *)

(** The character class of the pattern [/^[\d+\-*/().%\s]+$/]. *)
Definition isDigit (c : N) : bool := existsb (N.eqb c) (js "0123456789").

(** [\s]: the WhiteSpace and LineTerminator code points. *)
Definition isWhiteSpace (c : N) : bool :=
  ((c =? 0x9) || (c =? 0xa) || (c =? 0xb) || (c =? 0xc) || (c =? 0xd) ||
   (c =? 0x20) || (c =? 0xa0) || (c =? 0x1680) ||
   ((0x2000 <=? c) && (c <=? 0x200a)) ||
   (c =? 0x2028) || (c =? 0x2029) || (c =? 0x202f) || (c =? 0x205f) ||
   (c =? 0x3000) || (c =? 0xfeff))%N.

Definition isOperator (c : N) : bool := existsb (N.eqb c) (js "+-*/%").

Definition isParen (c : N) : bool := existsb (N.eqb c) (js "()").

Definition isDot (c : N) : bool := existsb (N.eqb c) (js ".").

Definition exprChar (c : N) : bool :=
  isDigit c || isOperator c || isParen c || isDot c || isWhiteSpace c.

(** [/^[\d+\-*/().%\s]+$/.test(expr)]: one or more characters of the class,
    and nothing else. *)
Definition test_expression (expr : jsstring) : bool :=
  match expr with
  | [] => false
  | _ => forallb exprChar expr
  end.

(** The grammar in words: a non-empty text of digits, the operators
    [+ - * / %], parentheses, decimal points and white space. *)
Definition accepted_grammar (expr : jsstring) : Prop :=
  expr <> [] /\
  Forall (fun c => In c (js "0123456789") \/ In c (js "+-*/%") \/ In c (js "()") \/
                   In c (js ".") \/ isWhiteSpace c = true) expr.

(** The source text handed to the [Function] constructor. *)
Definition function_source (expr : jsstring) : jsstring :=
  [34%N] ++ js "use strict" ++ [34%N] ++ js "; return (" ++ expr ++ js ")".

Definition conditions : list jsstring :=
  [js "sunny"; js "cloudy"; js "rainy"; js "partly cloudy"].

(** [a[i]] for a number [i]: [undefined] out of range. *)
Definition index {A} (a : list A) (i : Z) : option A :=
  if i <? 0 then None else a !! Z.to_nat i.

(** An object literal: properties whose value is [undefined] do not
    survive [JSON.stringify]. *)
Definition object_literal (props : list (jsstring * option JSValue)) : JSValue :=
  JObj (omap (fun '(k, v) => pair k <$> v) props).

(** The host: what the tool reads from the JavaScript runtime and from the
    client on the other end of [extra.sendRequest]. *)
Class Host (World : Type) := {
  Math_random : World -> Q * World;
  (** [Function(source)()] followed by the conversion of its value to text *)
  Function_call : jsstring -> World -> (Exn + jsstring) * World;
  (** [new Date().toLocaleString("en-US", { timeZone })] *)
  Date_toLocaleString : jsstring -> World -> (Exn + jsstring) * World;
  Number_toString : Q -> jsstring;
  JSON_stringify : JSValue -> jsstring;
  (** [JSON.stringify(result, null, 2)] *)
  JSON_stringify_result : CreateMessageResult -> jsstring;
  sendRequest :
    CreateMessageRequest -> ResultSchema -> World -> (Exn + CreateMessageResult) * World
}.

Section Tool.
Context {World : Type} `{Host World}.

(** The TypeError of a conversion to a primitive value that finds none. *)
Definition cannot_convert : Exn :=
  TypeError (js "Cannot convert object to primitive value").

(** [String(v)] on a JSON value or [undefined]. The values are plain: an
    object has its own data properties over [Object.prototype], an array its
    elements over [Array.prototype]. An object is converted by its
    [toString] method, then by [valueOf]: a property [toString] of the
    object itself holds a JSON value, never a function, and [valueOf] gives
    no primitive, so the conversion throws a TypeError; without such a
    property the inherited method answers. An array is converted by [join]:
    the elements from left to right, [null] as the empty text. *)
Fixpoint ToString (v : JSValue) : Exn + jsstring :=
  match v with
  | JNull => inr (js "null")
  | JBool true => inr (js "true")
  | JBool false => inr (js "false")
  | JNum q => inr (Number_toString q)
  | JStr s => inr s
  | JArr items =>
      match
        (fix elements (l : list JSValue) : Exn + list jsstring :=
           match l with
           | [] => inr []
           | e :: l' =>
               match (match e with JNull => inr [] | _ => ToString e end) with
               | inl err => inl err
               | inr piece =>
                   match elements l' with
                   | inl err => inl err
                   | inr pieces => inr (piece :: pieces)
                   end
               end
           end) items
      with
      | inl err => inl err
      | inr pieces => inr (join (js ",") pieces)
      end
  | JObj fields =>
      match get_prop fields (js "toString") with
      | Some _ => inl cannot_convert
      | None => inr (js "[object Object]")
      end
  end.

Definition String_ (v : option JSValue) : Exn + jsstring :=
  match v with
  | None => inr (js "undefined")
  | Some v => ToString v
  end.

Definition evaluate (source : jsstring) : Eff World jsstring :=
  record (EvEvaluate source) ;;;
  host_call (Function_call source).

(** [Math.floor(Math.random() * n)] *)
Definition random_below (n : Z) : Eff World Z :=
  r <- host_pure Math_random ;;
  ret (Qfloor (r * inject_Z n)).

Definition executeMockTool (name : jsstring) (input : JSObject) : Eff World jsstring :=
  if jsstring_eqb name (js "get_weather") then
    t <- random_below 30 ;;
    c <- random_below (Z.of_nat (length conditions)) ;;
    h <- random_below 60 ;;
    ret (JSON_stringify (object_literal
      [ (js "city", get_prop input (js "city"));
        (js "temperature", Some (JNum (inject_Z (t + 5))));
        (js "conditions", JStr <$> index conditions c);
        (js "humidity", Some (JNum (inject_Z (h + 40)))) ]))
  else if jsstring_eqb name (js "calculate") then
    try_catch
      (expr <- completion (String_ (get_prop input (js "expression"))) ;;
       if negb (test_expression expr) then
         ret (js "Error: Invalid expression. Only basic math operations allowed.")
       else
         result <- evaluate (function_source expr) ;;
         ret (js "Result: " ++ result))
      (ret (js "Error: Could not evaluate expression"))
  else if jsstring_eqb name (js "get_time") then
    try_catch
      (timezone <- completion (String_ (get_prop input (js "timezone"))) ;;
       host_call (Date_toLocaleString timezone))
      (ret (js "Error: Invalid timezone"))
  else
    ret (js "Unknown tool: " ++ name).

(** [extractToolCalls] *)
Definition as_tool_use (c : ContentBlock) : option ToolUse :=
  match c with ToolUseContent call => Some call | _ => None end.

Definition extractToolCalls (content : Content) : list ToolUse :=
  match content with
  | Many blocks => omap as_tool_use blocks
  | One (ToolUseContent call) => [call]
  | One _ => []
  end.

(** ** The agent loop of [trigger-enhanced-sampling] *)

(** The arguments after [TriggerEnhancedSamplingSchema.parse]. *)
Record Args := {
  prompt : jsstring;
  args_maxTokens : Q;
  args_systemPrompt : option jsstring;
  includeTools : bool;
  args_toolChoice : ToolChoiceMode;
  maxIterations : Q
}.

Record CallToolResult := { text : jsstring; isError : option bool }.

Record ToolCallRecord := { tc_name : jsstring; tc_input : JSObject; tc_result : jsstring }.

Record IterationResult := {
  iteration : Z;
  ir_stopReason : option jsstring;
  toolCalls : option (list ToolCallRecord);
  textResponse : option jsstring
}.

Record LoopState := {
  conversationHistory : list SamplingMessage;
  iterationResults : list IterationResult
}.

Inductive Step := Continue (st : LoopState) | Break (st : LoopState).

Definition nl : jsstring := [10%N].

(** [s || fallback] *)
Definition or_else (s : option jsstring) (fallback : jsstring) : jsstring :=
  match s with
  | Some s => if truthy s then s else fallback
  | None => fallback
  end.

Definition mode_name (mode : ToolChoiceMode) : jsstring :=
  match mode with auto => js "auto" | required => js "required" | none => js "none" end.

Definition send (request : CreateMessageRequest) (schema : ResultSchema)
  : Eff World CreateMessageResult :=
  record (EvSampling request schema) ;;;
  host_call (sendRequest request schema).

(** [a < b] and [a === b] on numbers. *)
Definition number_lt (a b : Q) : bool := negb (Qle_bool b a).
Definition number_eq (a b : Q) : bool := Qeq_bool a b.

(** The entry pushed on [toolResults] and the block pushed on
    [toolResultContent] for one tool call. *)
Definition tool_record (toolCall : ToolUse) (toolResult : jsstring) : ToolCallRecord :=
  {| tc_name := tu_name toolCall; tc_input := tu_input toolCall; tc_result := toolResult |}.

Definition tool_result (toolCall : ToolUse) (toolResult : jsstring) : ContentBlock :=
  ToolResultContent (tu_id toolCall) [toolResult].

(** [for (const toolCall of toolCalls) { ... }] *)
Fixpoint executeToolCalls (toolCalls : list ToolUse)
    (toolResults : list ToolCallRecord) (toolResultContent : list ContentBlock)
  : Eff World (list ToolCallRecord * list ContentBlock) :=
  match toolCalls with
  | [] => ret (toolResults, toolResultContent)
  | toolCall :: rest =>
      toolResult <- executeMockTool (tu_name toolCall) (tu_input toolCall) ;;
      executeToolCalls rest
        (toolResults ++ [tool_record toolCall toolResult])
        (toolResultContent ++ [tool_result toolCall toolResult])
  end.

Definition block_text (c : ContentBlock) : option jsstring :=
  match c with TextContent t => Some t | _ => None end.

(** End of conversation: extract the text response. *)
Definition extractText (content : Content) : jsstring :=
  match content with
  | Many blocks => join nl (omap block_text blocks)
  | One (TextContent t) => t
  | One _ => []
  end.

Definition finish (iterationResult : IterationResult) (result : CreateMessageResult)
    (st : LoopState) : Step :=
  let textResponse := extractText (result_content result) in
  Break {| conversationHistory := conversationHistory st;
           iterationResults := iterationResults st ++
             [{| iteration := iteration iterationResult;
                 ir_stopReason := ir_stopReason iterationResult;
                 toolCalls := toolCalls iterationResult;
                 textResponse := Some textResponse |}] |}.

Definition stop_is_toolUse (result : CreateMessageResult) : bool :=
  match stopReason result with
  | Some s => jsstring_eqb s (js "toolUse")
  | None => false
  end.

Section Loop.
Variable args : Args.

Definition default_system_prompt : jsstring :=
  js "You are a helpful assistant with access to tools. Use them when needed to answer questions accurately.".

Definition build_request (it : Z) (history : list SamplingMessage) : CreateMessageRequest :=
  let last := number_eq (inject_Z it) (maxIterations args - 1) in
  let currentToolChoice := if last then none else args_toolChoice args in
  {| messages := history;
     systemPrompt := or_else (args_systemPrompt args) default_system_prompt;
     maxTokens := args_maxTokens args;
     tools := if last then None else Some sampleTools;
     toolChoice := if last then None else Some currentToolChoice |}.

(** The schema the result is parsed with. *)
Definition result_schema (it : Z) : ResultSchema :=
  if number_eq (inject_Z it) (maxIterations args - 1) then CreateMessageResultSchema
  else CreateMessageResultWithToolsSchema.

(** One pass through the body of the [for] loop. *)
Definition loopBody (it : Z) (st : LoopState) : Eff World Step :=
  let request := build_request it (conversationHistory st) in
  result <- send request (result_schema it) ;;
  let iterationResult :=
    {| iteration := it + 1; ir_stopReason := stopReason result;
       toolCalls := None; textResponse := None |} in
  if stop_is_toolUse result then
    let calls := extractToolCalls (result_content result) in
    if (0 <? length calls)%nat then
      let history :=
        conversationHistory st ++
          [{| role := assistant; content := result_content result |}] in
      executed <- executeToolCalls calls [] [] ;;
      let toolResults := fst executed in
      let toolResultContent := snd executed in
      let history := history ++ [{| role := user; content := Many toolResultContent |}] in
      ret (Continue
        {| conversationHistory := history;
           iterationResults := iterationResults st ++
             [{| iteration := it + 1; ir_stopReason := stopReason result;
                 toolCalls := Some toolResults; textResponse := None |}] |})
    else ret (finish iterationResult result st)
  else ret (finish iterationResult result st).

(** [for (let iteration = 0; iteration < maxIterations; iteration++)] *)
Fixpoint agentLoop (fuel : nat) (it : Z) (st : LoopState) : Eff World LoopState :=
  if number_lt (inject_Z it) (maxIterations args) then
    match fuel with
    | O => fun m => (OutOfFuel, m)
    | S fuel' =>
        step <- loopBody it st ;;
        match step with
        | Continue st' => agentLoop fuel' (it + 1) st'
        | Break st' => ret st'
        end
    end
  else ret st.

(** Rendering of the final report. *)
Definition render_iteration (r : IterationResult) : jsstring :=
  let lines :=
    [js "Iteration " ++ Z_to_js (iteration r) ++ js ":";
     js "  Stop Reason: " ++ or_else (ir_stopReason r) (js "N/A")] ++
    match toolCalls r with
    | Some tcs =>
        js "  Tool Calls:" ::
        flat_map (fun tc =>
          [js "    - " ++ tc_name tc ++ js "(" ++ JSON_stringify (JObj (tc_input tc)) ++ js ")";
           js "      Result: " ++ tc_result tc]) tcs
    | None => []
    end ++
    match textResponse r with
    | Some t =>
        if truthy t then
          [js "  Response: " ++ take 200 t ++
             (if (200 <? length t)%nat then js "..." else [])]
        else []
    | None => []
    end in
  join nl lines.

Definition finalResponse (results : list IterationResult) : jsstring :=
  or_else (last results ≫= textResponse) (js "No final response").

Definition report (results : list IterationResult) : jsstring :=
  join nl
    ([js "=== Enhanced Sampling Agent Loop Result ===";
      [];
      js "Total Iterations: " ++ nat_to_js (length results);
      js "Tool Choice Mode: " ++ mode_name (args_toolChoice args);
      [];
      js "--- Iteration Details ---"] ++
     List.map render_iteration results ++
     [[];
      js "--- Final Response ---";
      finalResponse results]).

Definition seed : SamplingMessage :=
  {| role := user; content := One (TextContent (prompt args)) |}.

(** The iterations the loop can need: it stops counting at [maxIterations]. *)
Definition loop_fuel : nat := Z.to_nat (Qceiling (maxIterations args)).

Definition runAgentLoop : Eff World LoopState :=
  agentLoop loop_fuel 0 {| conversationHistory := [seed]; iterationResults := [] |}.

(** The callback registered for the tool. *)
Definition handler : Eff World CallToolResult :=
  if negb (includeTools args) then
    result <- send
      {| messages := [seed];
         systemPrompt := or_else (args_systemPrompt args) (js "You are a helpful assistant.");
         maxTokens := args_maxTokens args;
         tools := None;
         toolChoice := None |}
      CreateMessageResultSchema ;;
    ret {| text := js "Sampling Result (no tools):" ++ nl ++ JSON_stringify_result result;
           isError := None |}
  else
    st <- runAgentLoop ;;
    ret {| text := report (iterationResults st); isError := None |}.
End Loop.

(** ** Registration *)

Record SamplingCapability := { sampling_tools : bool; sampling_context : bool }.

Record ClientCapabilities := { sampling : option SamplingCapability; roots : bool; elicitation : bool }.

(** What the registration reads and writes of the [McpServer]. *)
Record McpServer := {
  getClientCapabilities : option ClientCapabilities;
  registeredTools : gmap jsstring (Args -> Eff World CallToolResult)
}.

Definition tool_name_ : jsstring := js "trigger-enhanced-sampling".

Definition registerTool (server : McpServer) (name : jsstring)
    (cb : Args -> Eff World CallToolResult) : McpServer :=
  {| getClientCapabilities := getClientCapabilities server;
     registeredTools := <[name := cb]> (registeredTools server) |}.

Definition registerTriggerEnhancedSamplingTool (server : McpServer) : McpServer :=
  let clientCapabilities :=
    default {| sampling := None; roots := false; elicitation := false |}
            (getClientCapabilities server) in
  let clientSupportsSampling := bool_decide (sampling clientCapabilities <> None) in
  if negb clientSupportsSampling then server
  else registerTool server tool_name_ handler.

(** A [tools/call] request as the SDK dispatches it: the callback registered
    under the name runs, or there is none. *)
Inductive CallOutcome :=
| NoSuchTool
| Ran (out : Outcome CallToolResult) (m : Machine World).

Definition callTool (server : McpServer) (name : jsstring) (a : Args) (m : Machine World)
  : CallOutcome :=
  match registeredTools server !! name with
  | Some cb => let '(out, m') := cb a m in Ran out m'
  | None => NoSuchTool
  end.
End Tool.

(** ** Error middleware ([handleAuthError], [handleGeneralError]) *)

Record OAuthConfig := { mcpServerUrl : jsstring; nodeEnv : jsstring }.

Record ErrorResponse := {
  er_status : Z;
  er_error : jsstring;
  er_description : jsstring;
  er_www_authenticate : option jsstring
}.

Definition quoted (s : jsstring) : jsstring := [34%N] ++ s ++ [34%N].

Definition buildWwwAuthenticateHeader (cfg : OAuthConfig)
    (error errorDescription : option jsstring) : jsstring :=
  let resourceMetadataUrl := mcpServerUrl cfg ++ js "/.well-known/oauth-protected-resource" in
  let value := js "Bearer resource_metadata=" ++ quoted resourceMetadataUrl in
  let value :=
    match error with
    | Some e => if truthy e then value ++ js ", error=" ++ quoted e else value
    | None => value
    end in
  match errorDescription with
  | Some d => if truthy d then value ++ js ", error_description=" ++ quoted d else value
  | None => value
  end.

Definition code_is (err : Exn) (c : string) : bool :=
  match exn_code err with Some x => jsstring_eqb x (js c) | None => false end.

(** [handleGeneralError]; [None] stands for [next(err)]. *)
Definition handleGeneralError (cfg : OAuthConfig) (headersSent : bool) (err : Exn)
  : option ErrorResponse :=
  if headersSent then None
  else Some {| er_status := 500;
               er_error := js "server_error";
               er_description :=
                 if jsstring_eqb (nodeEnv cfg) (js "development") then exn_message err
                 else js "An internal server error occurred";
               er_www_authenticate := None |}.

(** [handleAuthError], followed by what [next(err)] reaches. *)
Definition handleAuthError (cfg : OAuthConfig) (headersSent : bool) (err : Exn)
  : option ErrorResponse :=
  if headersSent then handleGeneralError cfg headersSent err
  else if code_is err "ERR_JWT_EXPIRED" || includes (exn_message err) (js "expired") then
    Some {| er_status := 401;
            er_error := js "invalid_token";
            er_description := js "The access token has expired";
            er_www_authenticate :=
              Some (buildWwwAuthenticateHeader cfg (Some (js "invalid_token"))
                      (Some (js "Token expired"))) |}
  else if jsstring_eqb (exn_name err) (js "UnauthorizedError") ||
          code_is err "ERR_JWT_INVALID" || code_is err "ERR_JWS_INVALID" then
    Some {| er_status := 401;
            er_error := js "invalid_token";
            er_description :=
              js "The access token is malformed or signature verification failed";
            er_www_authenticate :=
              Some (buildWwwAuthenticateHeader cfg (Some (js "invalid_token")) None) |}
  else if code_is err "credentials_required" then
    Some {| er_status := 401;
            er_error := js "invalid_request";
            er_description := js "Authorization header is required";
            er_www_authenticate := Some (buildWwwAuthenticateHeader cfg None None) |}
  else handleGeneralError cfg headersSent err.

(** ** The resumable transport ([transports/streamableHttp.ts]) *)

Module StreamableHttp.

Record Request := {
  mcp_session_id : option jsstring;
  last_event_id : option jsstring;
  body_id : option JSValue
}.

(** A transport object: its identity and its [sessionId] field. *)
Record Transport := { handle : nat; sessionId : option jsstring }.

(** The body of [res.status(..).json({ jsonrpc, error: { code, message }, id })]. *)
Record JsonRpcError := {
  jsonrpc : jsstring;
  code : Z;
  message : jsstring;
  id : option JSValue
}.

Record Reply := { reply_status : Z; reply_body : jsstring }.

Inductive Response :=
| Json (status : Z) (body : JsonRpcError)
| Sent (reply : Reply).

(** What one call of [transport.handleRequest(req, res)] did. *)
Record Handled := {
  initialized : option jsstring;
  closed : bool;
  reply : option Reply;
  threw : option Exn
}.

Class Sdk (World : Type) := {
  connect : Transport -> World -> option Exn * World;
  handleRequest : Transport -> Request -> World -> Handled * World
}.

Inductive Ev :=
| EvCreateServer
| EvNewTransport (h : nat)
| EvConnected (h : nat)
| EvRegistered (sid : jsstring) (h : nat)
| EvHandleRequest (h : nat)
| EvRemoved (sid : jsstring)
| EvCleanup (sid : jsstring).

Record State := {
  transports : gmap jsstring Transport;
  next_handle : nat;
  trace : list Ev
}.

(** What the route handler leaves behind: the response written, if any, and
    the rejection of its promise, if any. *)
Record Result := { response : option Response; rejected : option Exn }.

Definition emit (ev : Ev) (st : State) : State :=
  {| transports := transports st; next_handle := next_handle st; trace := trace st ++ [ev] |}.

(** [transports.has(sessionId)]; the keys are strings, [undefined] is none. *)
Definition has (st : State) (sessionId : option jsstring) : bool :=
  match sessionId with
  | Some sid => bool_decide (is_Some (transports st !! sid))
  | None => false
  end.

(** [transports.get(sessionId)] *)
Definition get (st : State) (sessionId : option jsstring) : option Transport :=
  sessionId ≫= (fun sid => transports st !! sid).

(** Truthiness of [sessionId]: a header that is there and not empty. *)
Definition given (sessionId : option jsstring) : bool :=
  match sessionId with
  | Some sid => truthy sid
  | None => false
  end.

Definition undefined_transport : Exn :=
  TypeError (js "Cannot read properties of undefined (reading 'handleRequest')").

Definition bad_request (req : Request) : Response :=
  Json 400 {| jsonrpc := js "2.0"; code := -32000;
              message := js "Bad Request: No valid session ID provided";
              id := body_id req |}.

Definition internal_error (msg : string) (req : Request) : Response :=
  Json 500 {| jsonrpc := js "2.0"; code := -32603; message := js msg; id := body_id req |}.

(** The [onsessioninitialized] callback. *)
Definition onsessioninitialized (sid : jsstring) (t : Transport) (st : State) : State :=
  emit (EvRegistered sid (handle t))
    {| transports := <[sid := t]> (transports st);
       next_handle := next_handle st; trace := trace st |}.

(** The [server.server.onclose] handler. *)
Definition onclose (t : Transport) (st : State) : State :=
  match sessionId t with
  | Some sid =>
      if truthy sid && has st (Some sid) then
        emit (EvCleanup sid) (emit (EvRemoved sid)
          {| transports := delete sid (transports st);
             next_handle := next_handle st; trace := trace st |})
      else st
  | None => st
  end.

Section Routes.
Context {World : Type} `{Sdk World}.

(** [await transport.handleRequest(req, res)], with the callbacks the
    transport fires while it runs. *)
Definition run_transport (t : Transport) (req : Request) (st : State) (w : World)
  : Handled * State * World :=
  let st := emit (EvHandleRequest (handle t)) st in
  let '(h, w) := handleRequest t req w in
  let '(t, st) :=
    match initialized h with
    | Some sid =>
        let t := {| handle := handle t; sessionId := Some sid |} in
        (t, onsessioninitialized sid t st)
    | None => (t, st)
    end in
  let st := if closed h then onclose t st else st in
  (h, st, w).

(** The outcome of a [try { await transport.handleRequest } catch] whose
    handler answers 500 unless the headers are out. *)
Definition guarded (msg : string) (req : Request) (h : Handled) : Result :=
  match threw h with
  | Some _ =>
      match reply h with
      | Some r => {| response := Some (Sent r); rejected := None |}
      | None => {| response := Some (internal_error msg req); rejected := None |}
      end
  | None => {| response := Sent <$> reply h; rejected := None |}
  end.

(** [app.post("/mcp", ...)] *)
Definition post_mcp (req : Request) (st : State) (w : World) : Result * State * World :=
  let sessionId := mcp_session_id req in
  if given sessionId && has st sessionId then
    match get st sessionId with
    | Some transport =>
        let '(h, st, w) := run_transport transport req st w in
        (guarded "Internal server error" req h, st, w)
    | None =>
        ({| response := Some (internal_error "Internal server error" req);
            rejected := None |}, st, w)
    end
  else if negb (given sessionId) then
    let st := emit EvCreateServer st in
    let transport := {| handle := next_handle st; sessionId := None |} in
    let st := emit (EvNewTransport (handle transport))
                {| transports := transports st;
                   next_handle := S (next_handle st); trace := trace st |} in
    match connect transport w with
    | (Some e, w) =>
        ({| response := Some (internal_error "Internal server error" req);
            rejected := None |}, st, w)
    | (None, w) =>
        let st := emit (EvConnected (handle transport)) st in
        let '(h, st, w) := run_transport transport req st w in
        (guarded "Internal server error" req h, st, w)
    end
  else
    ({| response := Some (bad_request req); rejected := None |}, st, w).

(** [app.get("/mcp", ...)] *)
Definition get_mcp (req : Request) (st : State) (w : World) : Result * State * World :=
  let sessionId := mcp_session_id req in
  if negb (given sessionId) || negb (has st sessionId) then
    ({| response := Some (bad_request req); rejected := None |}, st, w)
  else
    match get st sessionId with
    | Some transport =>
        let '(h, st, w) := run_transport transport req st w in
        ({| response := Sent <$> reply h; rejected := threw h |}, st, w)
    | None => ({| response := None; rejected := Some undefined_transport |}, st, w)
    end.

(** [app.delete("/mcp", ...)] *)
Definition delete_mcp (req : Request) (st : State) (w : World) : Result * State * World :=
  let sessionId := mcp_session_id req in
  if negb (given sessionId) || negb (has st sessionId) then
    ({| response := Some (bad_request req); rejected := None |}, st, w)
  else
    match get st sessionId with
    | Some transport =>
        let '(h, st, w) := run_transport transport req st w in
        (guarded "Error handling session termination" req h, st, w)
    | None =>
        ({| response := Some (internal_error "Error handling session termination" req);
            rejected := None |}, st, w)
    end.

Inductive Method := POST | GET | DELETE.

Definition route (method : Method) : Request -> State -> World -> Result * State * World :=
  match method with
  | POST => post_mcp
  | GET => get_mcp
  | DELETE => delete_mcp
  end.

(** The server over a sequence of requests. *)
Definition serve (reqs : list (Method * Request)) (st : State) (w : World) : State * World :=
  foldl (fun '(st, w) '(method, req) =>
           let '(_, st, w) := route method req st w in (st, w))
        (st, w) reqs.
End Routes.

(** Every registration in the trace comes after the connect of the
    transport it registers. *)
Definition registered_after_connect (tr : list Ev) : Prop :=
  forall (i : nat) sid h, tr !! i = Some (EvRegistered sid h) ->
    exists j : nat, (j < i)%nat /\ tr !! j = Some (EvConnected h).

(** The invariant of the routes: the order above, and every transport in
    the map has been connected. *)
Definition connected_before_registered (st : State) : Prop :=
  registered_after_connect (trace st) /\
  (forall sid t, transports st !! sid = Some t -> EvConnected (handle t) ∈ trace st).

Definition initial : State := {| transports := ∅; next_handle := 0; trace := [] |}.

End StreamableHttp.

(** ** The push-only transport ([transports/sse.ts]) *)

Module Sse.

(** A value of [req.query]: a string, or the array or object the query
    parser builds from repeated or bracketed parameters. *)
Inductive QueryValue := QStr (s : jsstring) | QNested.

Record Request := { query_sessionId : option QueryValue }.

Record Transport := { handle : nat; sessionId : jsstring }.

Record Reply := { reply_status : Z; reply_body : jsstring }.

Inductive Response :=
| InvalidSession (status : Z) (error error_description : jsstring)
| Stream (sid : jsstring)
| Sent (reply : Reply).

Class Sdk (World : Type) := {
  (** the constructor mints the session id *)
  new_SSEServerTransport : World -> jsstring * World;
  connect : Transport -> World -> option Exn * World;
  handlePostMessage : Transport -> Request -> World -> (Exn + Reply) * World
}.

Inductive Ev :=
| EvCreateServer
| EvNewTransport (h : nat)
| EvRegistered (sid : jsstring) (h : nat)
| EvConnected (h : nat)
| EvRemoved (sid : jsstring)
| EvCleanup (sid : jsstring).

Record State := {
  transports : gmap jsstring Transport;
  next_handle : nat;
  trace : list Ev
}.

Record Result := { response : option Response; rejected : option Exn }.

Definition emit (ev : Ev) (st : State) : State :=
  {| transports := transports st; next_handle := next_handle st; trace := trace st ++ [ev] |}.

(** Truthiness of [req?.query?.sessionId]. *)
Definition given (q : option QueryValue) : bool :=
  match q with
  | Some (QStr s) => truthy s
  | Some QNested => true
  | None => false
  end.

(** [transports.get(sessionId)]: only a string can be a key of the map. *)
Definition get (st : State) (q : option QueryValue) : option Transport :=
  match q with
  | Some (QStr s) => transports st !! s
  | _ => None
  end.

Definition undefined_sessionId : Exn :=
  TypeError (js "Cannot read properties of undefined (reading 'sessionId')").

(** The [server.server.onclose] handler of a connected session. *)
Definition onclose (t : Transport) (st : State) : State :=
  emit (EvCleanup (sessionId t)) (emit (EvRemoved (sessionId t))
    {| transports := delete (sessionId t) (transports st);
       next_handle := next_handle st; trace := trace st |}).

Section Routes.
Context {World : Type} `{Sdk World}.

(** [app.get("/sse", ...)] *)
Definition get_sse (req : Request) (st : State) (w : World) : Result * State * World :=
  let st := emit EvCreateServer st in
  if given (query_sessionId req) then
    match get st (query_sessionId req) with
    | Some transport => ({| response := None; rejected := None |}, st, w)
    | None => ({| response := None; rejected := Some undefined_sessionId |}, st, w)
    end
  else
    let '(sid, w) := new_SSEServerTransport w in
    let transport := {| handle := next_handle st; sessionId := sid |} in
    let st := emit (EvNewTransport (handle transport))
                {| transports := transports st;
                   next_handle := S (next_handle st); trace := trace st |} in
    let st := emit (EvRegistered sid (handle transport))
                {| transports := <[sid := transport]> (transports st);
                   next_handle := next_handle st; trace := trace st |} in
    match connect transport w with
    | (Some e, w) => ({| response := None; rejected := Some e |}, st, w)
    | (None, w) =>
        let st := emit (EvConnected (handle transport)) st in
        ({| response := Some (Stream sid); rejected := None |}, st, w)
    end.

(** [app.post("/message", ...)] *)
Definition post_message (req : Request) (st : State) (w : World) : Result * State * World :=
  match get st (query_sessionId req) with
  | Some transport =>
      match handlePostMessage transport req w with
      | (inr r, w) => ({| response := Some (Sent r); rejected := None |}, st, w)
      | (inl e, w) => ({| response := None; rejected := Some e |}, st, w)
      end
  | None =>
      ({| response := Some (InvalidSession 400 (js "invalid_session")
            (js "No valid session found for the provided session ID"));
          rejected := None |}, st, w)
  end.
End Routes.

Definition registered_after_connect (tr : list Ev) : Prop :=
  forall (i : nat) sid h, tr !! i = Some (EvRegistered sid h) ->
    exists j : nat, (j < i)%nat /\ tr !! j = Some (EvConnected h).

Definition initial : State := {| transports := ∅; next_handle := 0; trace := [] |}.

End Sse.

(** ** The resumable event log *)

Module EventLog.

(** Modelled from the spec: the event store behind the resumable transport.
    The route only constructs [InMemoryEventStore], whose code belongs to the
    SDK package and is not part of the sources; [append] and [replay] follow
    the contract of the Resumable Event Log: per session, sequence numbers
    start at 1 and grow by one with every append, and replay returns, in the
    order of the log, the entries whose number is greater than the marker. *)
Record Entry := { seq : Z; payload : jsstring }.

Definition entries (log : gmap jsstring (list Entry)) (sid : jsstring) : list Entry :=
  default [] (log !! sid).

(** Modelled from the spec: the number the next append to a session gets,
    one more than the last, starting at 1. *)
Definition next_seq (log : gmap jsstring (list Entry)) (sid : jsstring) : Z :=
  match last (entries log sid) with
  | Some e => seq e + 1
  | None => 1
  end.

(** Modelled from the spec: [append(sessionId, payload) -> sequenceNumber]. *)
Definition append (sid payload : jsstring) (log : gmap jsstring (list Entry))
  : Z * gmap jsstring (list Entry) :=
  let n := next_seq log sid in
  (n, <[sid := entries log sid ++ [{| seq := n; payload := payload |}]]> log).

(** Modelled from the spec: [replay(sessionId, afterSequenceNumber)]. *)
Definition replay (sid : jsstring) (after : Z) (log : gmap jsstring (list Entry))
  : list Entry :=
  List.filter (fun e => after <? seq e) (entries log sid).

(** A history of appends, to any sessions, oldest first. *)
Definition appends (ops : list (jsstring * jsstring)) (log : gmap jsstring (list Entry))
  : gmap jsstring (list Entry) :=
  foldl (fun log op => snd (append (fst op) (snd op) log)) log ops.

(** The payloads a history appended to one session. *)
Definition appended_to (sid : jsstring) (ops : list (jsstring * jsstring)) : list jsstring :=
  snd <$> List.filter (fun op => jsstring_eqb (fst op) sid) ops.

(** The entries [a(k+1) .. an] of payloads [a1 .. an], numbered from [k+1]. *)
Fixpoint numbered (from : Z) (payloads : list jsstring) : list Entry :=
  match payloads with
  | [] => []
  | p :: rest => {| seq := from; payload := p |} :: numbered (from + 1) rest
  end.

End EventLog.

(** ** Scripted counterparts, for the scenarios *)

Module Scenario.

(** A client that answers from a script; the world is what is left of it. *)
Definition script_exhausted : Exn :=
  {| exn_name := js "McpError"; exn_code := None; exn_message := js "Request timed out" |}.

Definition syntax_error : Exn :=
  {| exn_name := js "SyntaxError"; exn_code := None; exn_message := js "Unexpected token" |}.

#[global] Instance scripted : Host (list CreateMessageResult) := {|
  Math_random w := (1 # 2, w);
  Function_call source w :=
    if jsstring_eqb source (function_source (js "2+2")) then (inr (js "4"), w)
    else (inl syntax_error, w);
  Date_toLocaleString tz w := (inr (js "1/1/2026, 12:00:00 PM"), w);
  Number_toString q := Z_to_js (Qfloor q);
  JSON_stringify v := js "{}";
  JSON_stringify_result r := js "{}";
  sendRequest request schema w :=
    match w with
    | r :: rest => (inr r, rest)
    | [] => (inl script_exhausted, [])
    end
|}.

Definition calculate_call : ToolUse :=
  {| tu_name := js "calculate"; tu_id := js "call_1";
     tu_input := [(js "expression", JStr (js "2+2"))] |}.

Definition weather_call : ToolUse :=
  {| tu_name := js "get_weather"; tu_id := js "call_2";
     tu_input := [(js "city", JStr (js "Paris"))] |}.

Definition wants_tools : CreateMessageResult :=
  {| stopReason := Some (js "toolUse");
     result_content := Many [ToolUseContent calculate_call; ToolUseContent weather_call];
     result_model := js "model" |}.

Definition final_answer : CreateMessageResult :=
  {| stopReason := Some (js "endTurn");
     result_content := One (TextContent (js "4, and it is sunny."));
     result_model := js "model" |}.

Definition args (n : Z) : Args :=
  {| prompt := js "What's 2+2 and the weather in Paris?";
     args_maxTokens := 1000;
     args_systemPrompt := None;
     includeTools := true;
     args_toolChoice := required;
     maxIterations := inject_Z n |}.

(** A client that declares sampling, without the tools sub-capability. *)
Definition sampling_without_tools : ClientCapabilities :=
  {| sampling := Some {| sampling_tools := false; sampling_context := false |};
     roots := false; elicitation := false |}.

(** A client that declares no sampling at all. *)
Definition no_sampling : ClientCapabilities :=
  {| sampling := None; roots := true; elicitation := false |}.

Definition fresh_server (caps : option ClientCapabilities) : McpServer :=
  {| getClientCapabilities := caps;
     registeredTools := (∅ : gmap jsstring (Args -> Eff (list CreateMessageResult) CallToolResult)) |}.

(** An SDK whose fresh transport answers an initialize request: it mints
    the session id and fires [onsessioninitialized]. *)
Definition minted : jsstring := js "3f2a".

#[global] Instance initializing : StreamableHttp.Sdk unit := {|
  StreamableHttp.connect t w := (None, w);
  StreamableHttp.handleRequest t req w :=
    ({| StreamableHttp.initialized :=
          match StreamableHttp.sessionId t with None => Some minted | Some _ => None end;
        StreamableHttp.closed := false;
        StreamableHttp.reply :=
          Some {| StreamableHttp.reply_status := 200; StreamableHttp.reply_body := js "{}" |};
        StreamableHttp.threw := None |}, w)
|}.

Definition initialize_with_empty_header : StreamableHttp.Request :=
  {| StreamableHttp.mcp_session_id := Some [];
     StreamableHttp.last_event_id := None;
     StreamableHttp.body_id := Some (JNum 1) |}.

Definition unknown_session : StreamableHttp.Request :=
  {| StreamableHttp.mcp_session_id := Some (js "no-such-session");
     StreamableHttp.last_event_id := None;
     StreamableHttp.body_id := Some (JNum 7) |}.

#[global] Instance sse_sdk : Sse.Sdk unit := {|
  Sse.new_SSEServerTransport w := (minted, w);
  Sse.connect t w := (None, w);
  Sse.handlePostMessage t req w :=
    (inr {| Sse.reply_status := 202; Sse.reply_body := js "Accepted" |}, w)
|}.

Definition sse_first_connect : Sse.Request := {| Sse.query_sessionId := None |}.

Definition sse_empty_parameter : Sse.Request := {| Sse.query_sessionId := Some (Sse.QStr []) |}.

Definition sse_unknown : Sse.Request :=
  {| Sse.query_sessionId := Some (Sse.QStr (js "no-such-session")) |}.

End Scenario.


(** ** OAuth configuration, token checks and scopes ([auth/]) *)

Module Auth.

(** [s.split(sep)] for a separator of one character. *)
Fixpoint split (sep : N) (s : jsstring) : list jsstring :=
  match s with
  | [] => [[]]
  | c :: rest =>
      if (c =? sep)%N then [] :: split sep rest
      else
        match split sep rest with
        | piece :: pieces => (c :: piece) :: pieces
        | [] => [[c]]
        end
  end.

(** [s.trim()] *)
Fixpoint trimStart (s : jsstring) : jsstring :=
  match s with
  | [] => []
  | c :: rest => if isWhiteSpace c then trimStart rest else s
  end.

Definition trim (s : jsstring) : jsstring := rev (trimStart (rev (trimStart s))).

(** [array.includes(x)] *)
Definition array_includes (a : list jsstring) (x : jsstring) : bool :=
  existsb (jsstring_eqb x) a.

Definition comma : N := 44%N.
Definition space : N := 32%N.

(** [OAuthConfig] of [config.ts]. The port is [NaN] when it is [None]. *)
Record Config := {
  entraClientId : jsstring;
  entraTenantId : jsstring;
  mcpServerUrl : jsstring;
  mcpResourceIdentifier : jsstring;
  authorizedTenants : list jsstring;
  allowAnyTenant : bool;
  port : option Z;
  nodeEnv : jsstring;
  allowedOrigins : list jsstring;
  oauthEnabled : bool
}.

(** What the error handlers read of the configuration. *)
Definition for_errors (cfg : Config) : OAuthConfig :=
  Build_OAuthConfig (mcpServerUrl cfg) (nodeEnv cfg).

(** [loadOAuthConfig], over [process.env] and the built-in [parseInt]; the
    second component is the list [missing] the warning is printed for. *)
Definition loadOAuthConfig (parseInt : jsstring -> Z -> option Z)
    (env : jsstring -> option jsstring) : Config * list jsstring :=
  let oauthEnabled := negb (bool_decide (env (js "OAUTH_ENABLED") = Some (js "false"))) in
  let entraClientId := or_else (env (js "ENTRA_CLIENT_ID")) [] in
  let entraTenantId := or_else (env (js "ENTRA_TENANT_ID")) [] in
  let mcpServerUrl :=
    or_else (env (js "MCP_SERVER_URL"))
      (js "http://localhost:" ++ or_else (env (js "PORT")) (js "3001")) in
  let mcpResourceIdentifier := or_else (env (js "MCP_RESOURCE_IDENTIFIER")) mcpServerUrl in
  let authorizedTenants :=
    match env (js "AUTHORIZED_TENANTS") with
    | Some s => List.filter truthy (List.map trim (split comma s))
    | None => []
    end in
  let allowAnyTenant :=
    array_includes authorizedTenants (js "common") || (length authorizedTenants =? 0)%nat in
  let port := parseInt (or_else (env (js "PORT")) (js "3001")) 10 in
  let nodeEnv := or_else (env (js "NODE_ENV")) (js "development") in
  let allowedOriginsRaw := or_else (env (js "ALLOWED_ORIGINS")) (js "*") in
  let allowedOrigins :=
    if jsstring_eqb allowedOriginsRaw (js "*") then [js "*"]
    else List.map trim (split comma allowedOriginsRaw) in
  let missing :=
    if oauthEnabled then
      (if negb (truthy entraClientId) then [js "ENTRA_CLIENT_ID"] else []) ++
      (if negb (truthy entraTenantId) && negb allowAnyTenant
       then [js "ENTRA_TENANT_ID (or set AUTHORIZED_TENANTS=common)"] else [])
    else [] in
  ({| entraClientId := entraClientId;
      entraTenantId := entraTenantId;
      mcpServerUrl := mcpServerUrl;
      mcpResourceIdentifier := mcpResourceIdentifier;
      authorizedTenants := authorizedTenants;
      allowAnyTenant := allowAnyTenant;
      port := port;
      nodeEnv := nodeEnv;
      allowedOrigins := allowedOrigins;
      oauthEnabled := oauthEnabled |}, missing).

(** *** Protected resource metadata ([metadata.ts]) *)

Record ProtectedResourceMetadata := {
  resource : jsstring;
  authorization_servers : list jsstring;
  bearer_methods_supported : list jsstring;
  scopes_supported : list jsstring;
  resource_documentation : option jsstring
}.

Definition login : jsstring := js "https://login.microsoftonline.com/".

Definition buildProtectedResourceMetadata (cfg : Config) : ProtectedResourceMetadata :=
  let tenantPath := if allowAnyTenant cfg then js "common" else entraTenantId cfg in
  {| resource := or_else (Some (mcpResourceIdentifier cfg)) (mcpServerUrl cfg);
     authorization_servers := [login ++ tenantPath ++ js "/v2.0"];
     bearer_methods_supported := [js "header"];
     scopes_supported :=
       [js "api://" ++ entraClientId cfg ++ js "/mcp:tools";
        js "api://" ++ entraClientId cfg ++ js "/mcp:resources"];
     resource_documentation := Some (mcpServerUrl cfg ++ js "/docs") |}.

(** *** Token validation ([jwt-middleware.ts]) *)

(** The claims of [req.auth] the middleware reads; a claim the token does
    not carry is [undefined]. *)
Record Claims := {
  sub : option jsstring;
  iss : option jsstring;
  tid : option jsstring;
  scp : option jsstring;
  roles : option (list jsstring)
}.

Record Request := {
  authorization : option jsstring;
  auth : option Claims;
  ip : option jsstring
}.

(** The body and the header of a refusal. *)
Record Denial := {
  status : Z;
  error : jsstring;
  error_description : jsstring;
  www_authenticate : option jsstring;
  required_scopes : option (list jsstring)
}.

(** A middleware calls [next()] or answers. *)
Inductive Verdict := Next | Deny (d : Denial).

(** A string or [undefined] inside a template literal. *)
Definition template (v : option jsstring) : jsstring := default (js "undefined") v.

Definition getJwksUri (cfg : Config) : jsstring :=
  let tenantPath := if allowAnyTenant cfg then js "common" else entraTenantId cfg in
  login ++ tenantPath ++ js "/discovery/v2.0/keys".

(** The options [createJwtCheck] hands to [expressjwt]. *)
Record JwtOptions := {
  jwksUri : jsstring;
  audience : jsstring;
  issuer : option jsstring;
  algorithms : list jsstring
}.

Definition createJwtCheck (cfg : Config) : JwtOptions :=
  {| jwksUri := getJwksUri cfg;
     audience := js "api://" ++ entraClientId cfg;
     issuer :=
       if allowAnyTenant cfg then None
       else Some (login ++ entraTenantId cfg ++ js "/v2.0");
     algorithms := [js "RS256"] |}.

Definition expectedIssuer (tid : option jsstring) : jsstring :=
  login ++ template tid ++ js "/v2.0".

Definition validateTenant (cfg : Config) (req : Request) : Verdict :=
  match auth req with
  | None => Next
  | Some claims =>
      if negb (bool_decide (iss claims = Some (expectedIssuer (tid claims)))) then
        Deny {| status := 401;
                error := js "invalid_token";
                error_description := js "Token issuer validation failed";
                www_authenticate := None;
                required_scopes := None |}
      else if negb (allowAnyTenant cfg) &&
              negb (match tid claims with
                    | Some t => array_includes (authorizedTenants cfg) t
                    | None => false
                    end) then
        Deny {| status := 403;
                error := js "access_denied";
                error_description := js "Tenant is not authorized to access this resource";
                www_authenticate := None;
                required_scopes := None |}
      else Next
  end.

(** [!req.headers.authorization] *)
Definition no_authorization (req : Request) : bool :=
  match authorization req with
  | Some v => negb (truthy v)
  | None => true
  end.

Definition unauthorized (cfg : Config) (err desc : string)
    (header_error header_description : option string) : Verdict :=
  Deny {| status := 401;
          error := js err;
          error_description := js desc;
          www_authenticate :=
            Some (buildWwwAuthenticateHeader (for_errors cfg)
                    (js <$> header_error) (js <$> header_description));
          required_scopes := None |}.

(** The middleware of [createBearerAuthMiddleware]; [jwtCheck] is the
    [expressjwt] handler: it fails with an error or passes the request on,
    with [req.auth] as it has set it. *)
Definition bearerAuth (cfg : Config) (jwtCheck : Request -> Exn + Request) (req : Request)
  : Verdict * Request :=
  match jwtCheck req with
  | inl err =>
      (if code_is err "credentials_required" || no_authorization req then
         unauthorized cfg "invalid_request" "Authorization header is required" None None
       else if code_is err "ERR_JWT_EXPIRED" || includes (exn_message err) (js "expired") then
         unauthorized cfg "invalid_token" "The access token has expired"
           (Some "invalid_token") (Some "Token expired")
       else if jsstring_eqb (exn_name err) (js "UnauthorizedError") ||
               code_is err "ERR_JWT_INVALID" || code_is err "ERR_JWS_INVALID" then
         unauthorized cfg "invalid_token"
           "The access token is malformed or signature verification failed"
           (Some "invalid_token") None
       else
         unauthorized cfg "invalid_token" "Token validation failed"
           (Some "invalid_token") None,
       req)
  | inr req' => (validateTenant cfg req', req')
  end.

(** *** Scopes ([scope-middleware.ts]) *)

Definition buildScopeErrorHeader (cfg : Config) (requiredScopes : list jsstring) : jsstring :=
  let resourceMetadataUrl := mcpServerUrl cfg ++ js "/.well-known/oauth-protected-resource" in
  js "Bearer resource_metadata=" ++ quoted resourceMetadataUrl ++ js ", " ++
  js "error=" ++ quoted (js "insufficient_scope") ++ js ", " ++
  js "scope=" ++ quoted (join (js " ") requiredScopes).

(** [[...tokenScopes, ...tokenRoles]] *)
Definition allPermissions (claims : Claims) : list jsstring :=
  match scp claims with Some s => split space s | None => [] end ++
  default [] (roles claims).

Definition requireScope (cfg : Config) (requiredScopes : list jsstring) (req : Request)
  : Verdict :=
  match auth req with
  | None =>
      Deny {| status := 401;
              error := js "invalid_token";
              error_description := js "No authentication context available";
              www_authenticate := None;
              required_scopes := None |}
  | Some claims =>
      let hasRequiredScope :=
        existsb (fun scope => array_includes (allPermissions claims) scope) requiredScopes in
      if negb hasRequiredScope then
        Deny {| status := 403;
                error := js "insufficient_scope";
                error_description := js "Required scope: " ++ join (js " or ") requiredScopes;
                www_authenticate := Some (buildScopeErrorHeader cfg requiredScopes);
                required_scopes := Some requiredScopes |}
      else Next
  end.

Definition invalid_token_type (desc : string) : Verdict :=
  Deny {| status := 403;
          error := js "invalid_token_type";
          error_description := js desc;
          www_authenticate := None;
          required_scopes := None |}.

Definition requireDelegatedToken (req : Request) : Verdict :=
  match auth req ≫= scp with
  | Some s =>
      if truthy s then Next
      else invalid_token_type "This endpoint requires a delegated access token (user context)"
  | None => invalid_token_type "This endpoint requires a delegated access token (user context)"
  end.

Definition requireApplicationToken (req : Request) : Verdict :=
  match auth req ≫= roles with
  | Some (_ :: _) => Next
  | _ => invalid_token_type "This endpoint requires an application access token"
  end.

Definition MCP_TOOL_SCOPES : list jsstring := [js "mcp:tools"; js "Mcp.Execute.All"].
Definition MCP_RESOURCE_SCOPES : list jsstring := [js "mcp:resources"; js "Mcp.Read.All"].
Definition MCP_ADMIN_SCOPES : list jsstring := [js "mcp:admin"; js "Mcp.Admin.All"].

(** *** Rate limiting ([rate-limiter.ts]) and the protected stack *)

(** The [keyGenerator] of [apiLimiter]. *)
Definition keyGenerator (req : Request) : jsstring :=
  or_else (auth req ≫= sub) (or_else (ip req) (js "unknown")).

Definition too_many_requests : Verdict :=
  Deny {| status := 429;
          error := js "too_many_requests";
          error_description := js "Rate limit exceeded";
          www_authenticate := None;
          required_scopes := None |}.

(** [apiLimiter]; [within_limit] is the library's count for the key. *)
Definition apiLimiter (within_limit : jsstring -> bool) (req : Request) : Verdict :=
  if within_limit (keyGenerator req) then Next else too_many_requests.

(** [protectedMiddleware], run in order in front of a route: the verdict,
    and the request as the route would see it. *)
Definition protectedMiddleware (cfg : Config) (within_limit : jsstring -> bool)
    (jwtCheck : Request -> Exn + Request) (req : Request) : Verdict * Request :=
  match apiLimiter within_limit req with
  | Deny d => (Deny d, req)
  | Next =>
      if oauthEnabled cfg then
        match bearerAuth cfg jwtCheck req with
        | (Deny d, req') => (Deny d, req')
        | (Next, req') => (requireScope cfg MCP_TOOL_SCOPES req', req')
        end
      else (Next, req)
  end.

(** A piece of [s] that stands between separators, or between a separator
    and an end of [s], and holds no separator itself. *)
Definition whole_token (sep : N) (token s : jsstring) : Prop :=
  ~ In sep token /\
  exists l r, s = l ++ token ++ r /\
    (l = [] \/ exists l', l = l' ++ [sep]) /\
    (r = [] \/ exists r', r = sep :: r').

(** The start of every [WWW-Authenticate] value: where the metadata of the
    protected resource is served. *)
Definition resource_metadata_challenge (url : jsstring) : jsstring :=
  js "Bearer resource_metadata=" ++ quoted (url ++ js "/.well-known/oauth-protected-resource").

End Auth.

(** ** Shapes of a conversation *)

(** A conversation tail in which every assistant message with tool
    invocations is followed by one user message that answers them, one
    result per invocation, in order and tagged with its identifier. *)
Inductive answered : list SamplingMessage -> Prop :=
| answered_nil : answered []
| answered_turn (c : Content) (results : list ContentBlock) (rest : list SamplingMessage) :
    extractToolCalls c <> [] ->
    Forall2 (fun call block => exists t, block = ToolResultContent (tu_id call) [t])
            (extractToolCalls c) results ->
    answered rest ->
    answered ({| role := assistant; content := c |} ::
              {| role := user; content := Many results |} :: rest).

(** The iterations of a report that ran tools. *)
Definition ran_tools (r : IterationResult) : bool :=
  match toolCalls r with Some _ => true | None => false end.

(** ** More scripted counterparts *)

Module Cases.

(** A run of two rounds: tools first, then the answer. *)
Definition two_round_script : list CreateMessageResult :=
  [Scenario.wants_tools; Scenario.final_answer].

Definition two_rounds : Outcome LoopState * Machine (list CreateMessageResult) :=
  runAgentLoop (Scenario.args 3) (start two_round_script).

Definition two_rounds_state : LoopState :=
  match two_rounds.1 with
  | Returned st => st
  | _ => {| conversationHistory := []; iterationResults := [] |}
  end.

Definition basic_args : Args :=
  {| prompt := js "Hello";
     args_maxTokens := 100;
     args_systemPrompt := None;
     includeTools := false;
     args_toolChoice := required;
     maxIterations := 0 |}.

(** A result whose content holds a tool invocation although it stops for
    another reason. *)
Definition stops_with_tools_inside : CreateMessageResult :=
  {| stopReason := Some (js "endTurn");
     result_content :=
       Many [TextContent (js "Done."); ToolUseContent Scenario.calculate_call];
     result_model := js "model" |}.

(** An SDK whose transports initialize on their first request and close on
    any later one. *)
#[global] Instance lifecycle : StreamableHttp.Sdk bool := {|
  StreamableHttp.connect t w := (None, w);
  StreamableHttp.handleRequest t req w :=
    match StreamableHttp.sessionId t with
    | None =>
        ({| StreamableHttp.initialized := Some Scenario.minted;
            StreamableHttp.closed := false;
            StreamableHttp.reply :=
              Some {| StreamableHttp.reply_status := 200;
                      StreamableHttp.reply_body := js "{}" |};
            StreamableHttp.threw := None |}, w)
    | Some _ =>
        ({| StreamableHttp.initialized := None;
            StreamableHttp.closed := true;
            StreamableHttp.reply :=
              Some {| StreamableHttp.reply_status := 200;
                      StreamableHttp.reply_body := js "" |};
            StreamableHttp.threw := None |}, w)
    end
|}.

Definition connection_refused : Exn :=
  {| exn_name := js "Error"; exn_code := None; exn_message := js "Already connected" |}.

(** An SDK whose connect fails. *)
#[global] Instance refusing : StreamableHttp.Sdk nat := {|
  StreamableHttp.connect t w := (Some connection_refused, S w);
  StreamableHttp.handleRequest t req w :=
    ({| StreamableHttp.initialized := None; StreamableHttp.closed := false;
        StreamableHttp.reply := None; StreamableHttp.threw := None |}, w)
|}.

Definition initialize : StreamableHttp.Request :=
  {| StreamableHttp.mcp_session_id := None;
     StreamableHttp.last_event_id := None;
     StreamableHttp.body_id := Some (JNum 1) |}.

Definition with_session (sid : jsstring) : StreamableHttp.Request :=
  {| StreamableHttp.mcp_session_id := Some sid;
     StreamableHttp.last_event_id := None;
     StreamableHttp.body_id := Some (JNum 2) |}.

Definition live_transport : StreamableHttp.Transport :=
  {| StreamableHttp.handle := 0; StreamableHttp.sessionId := Some Scenario.minted |}.

(** The map after one session was opened. *)
Definition one_session : StreamableHttp.State :=
  {| StreamableHttp.transports := {[ Scenario.minted := live_transport ]};
     StreamableHttp.next_handle := 1;
     StreamableHttp.trace := [] |}.

(** The map with a second session beside the first. *)
Definition other_transport : StreamableHttp.Transport :=
  {| StreamableHttp.handle := 1; StreamableHttp.sessionId := Some (js "9c41") |}.

Definition two_sessions : StreamableHttp.State :=
  {| StreamableHttp.transports :=
       <[js "9c41" := other_transport]> {[ Scenario.minted := live_transport ]};
     StreamableHttp.next_handle := 2;
     StreamableHttp.trace := [] |}.

Definition sse_message : Sse.Request :=
  {| Sse.query_sessionId := Some (Sse.QStr Scenario.minted) |}.



Definition no_parse (s : jsstring) (radix : Z) : option Z := None.

Definition listed_env (name : jsstring) : option jsstring :=
  if jsstring_eqb name (js "AUTHORIZED_TENANTS") then Some (js " contoso , fabrikam ,,")
  else if jsstring_eqb name (js "ENTRA_TENANT_ID") then Some (js "contoso")
  else if jsstring_eqb name (js "ENTRA_CLIENT_ID") then Some (js "app")
  else None.

(** A tenant list of commas and blanks only. *)
Definition blank_env (name : jsstring) : option jsstring :=
  if jsstring_eqb name (js "AUTHORIZED_TENANTS") then Some (js " , ,") else None.

Definition listed_config : Auth.Config := (Auth.loadOAuthConfig no_parse listed_env).1.

Definition user_claims : Auth.Claims :=
  {| Auth.sub := Some (js "alice");
     Auth.iss := Some (js "https://login.microsoftonline.com/contoso/v2.0");
     Auth.tid := Some (js "contoso");
     Auth.scp := Some (js "profile mcp:tools");
     Auth.roles := None |}.

Definition bare_request : Auth.Request :=
  {| Auth.authorization := Some (js "Bearer abc"); Auth.auth := None;
     Auth.ip := Some (js "203.0.113.7") |}.

Definition authenticated : Auth.Request :=
  {| Auth.authorization := Some (js "Bearer abc"); Auth.auth := Some user_claims;
     Auth.ip := Some (js "203.0.113.7") |}.

Definition accepting (req : Auth.Request) : Exn + Auth.Request := inr authenticated.

Definition token_expired : Exn :=
  {| exn_name := js "UnauthorizedError"; exn_code := Some (js "invalid_token");
     exn_message := js "jwt expired" |}.

Definition rejecting (req : Auth.Request) : Exn + Auth.Request := inl token_expired.

Definition unlimited (key : jsstring) : bool := true.

End Cases.
(** * Properties *)

Section ToolFacts.
Context {World : Type} `{Host World}.

Lemma sampling_requests_app (l1 l2 : list Event) :
  sampling_requests (l1 ++ l2) = sampling_requests l1 ++ sampling_requests l2.
Proof. unfold sampling_requests. apply omap_app. Qed.

Lemma bind_run {A B} (c : Eff World A) (k : A -> Eff World B) (m : Machine World) :
  bind c k m =
    match c m with
    | (Returned x, m') => k x m'
    | (Threw e, m') => (Threw e, m')
    | (OutOfFuel, m') => (OutOfFuel, m')
    end.
Proof. reflexivity. Qed.

Lemma send_run (request : CreateMessageRequest) (schema : ResultSchema) (m : Machine World) :
  send request schema m =
    match sendRequest request schema (world m) with
    | (inr r, w) => (Returned r, {| world := w; log := log m ++ [EvSampling request schema] |})
    | (inl e, w) => (Threw e, {| world := w; log := log m ++ [EvSampling request schema] |})
    end.
Proof.
  unfold send, bind, record, host_call. cbn [world log].
  now destruct (sendRequest request schema (world m)) as [[e | r] w].
Qed.

(** A conversion that throws inside [try] goes to the handler. *)
Lemma try_completion {A B} (r : Exn + A) (k : A -> Eff World B) (handler : Eff World B)
    (m : Machine World) :
  try_catch (bind (completion r) k) handler m =
    match r with
    | inl _ => handler m
    | inr a => try_catch (k a) handler m
    end.
Proof. destruct r; reflexivity. Qed.

Lemma executeMockTool_returns (name : jsstring) (input : JSObject) (m : Machine World) :
  exists text w evs,
    executeMockTool name input m = (Returned text, {| world := w; log := log m ++ evs |}) /\
    (evs = [] \/
     exists expr,
       String_ (get_prop input (js "expression")) = inr expr /\
       evs = [EvEvaluate (function_source expr)]).
Proof.
  destruct m as [w0 l0]. unfold executeMockTool.
  destruct (jsstring_eqb name (js "get_weather")).
  { unfold bind, random_below, bind, host_pure, ret; cbn [world log].
    destruct (Math_random w0) as [r1 w1]; cbn [world log].
    destruct (Math_random w1) as [r2 w2]; cbn [world log].
    destruct (Math_random w2) as [r3 w3]; cbn [world log].
    eexists _, w3, []. rewrite app_nil_r. split; [reflexivity | now left]. }
  destruct (jsstring_eqb name (js "calculate")).
  { rewrite try_completion.
    destruct (String_ (get_prop input (js "expression"))) as [err | expr].
    { unfold ret. eexists _, w0, []. rewrite app_nil_r. split; [reflexivity | now left]. }
    unfold try_catch. destruct (test_expression expr); cbn [negb].
    - unfold bind, evaluate, bind, record, host_call, ret; cbn [world log].
      destruct (Function_call _ w0) as [[e | r] w1]; cbn [world log];
        eexists _, w1, _; (split; [reflexivity | right; now exists expr]).
    - unfold ret. eexists _, w0, []. rewrite app_nil_r.
      split; [reflexivity | now left]. }
  destruct (jsstring_eqb name (js "get_time")).
  { rewrite try_completion.
    destruct (String_ (get_prop input (js "timezone"))) as [err | timezone].
    { unfold ret. eexists _, w0, []. rewrite app_nil_r. split; [reflexivity | now left]. }
    unfold try_catch, host_call, ret; cbn [world log].
    destruct (Date_toLocaleString _ w0) as [[e | r] w1]; cbn [world log];
      eexists _, w1, []; rewrite app_nil_r; (split; [reflexivity | now left]). }
  unfold ret. eexists _, w0, []. rewrite app_nil_r.
  split; [reflexivity | now left].
Qed.

Lemma executeToolCalls_returns (calls : list ToolUse) :
  forall (recs : list ToolCallRecord) (blocks : list ContentBlock) (m : Machine World),
  exists texts w evs,
    executeToolCalls calls recs blocks m =
      (Returned (recs ++ zip_with tool_record calls texts,
                 blocks ++ zip_with tool_result calls texts),
       {| world := w; log := log m ++ evs |}) /\
    length texts = length calls /\
    sampling_requests evs = [].
Proof.
  induction calls as [| call rest IH]; intros recs blocks m.
  - exists [], (world m), []. cbn. rewrite !app_nil_r. destruct m. auto.
  - cbn [executeToolCalls]. unfold bind at 1.
    destruct (executeMockTool_returns (tu_name call) (tu_input call) m)
      as (t & w1 & evs1 & -> & Hevs1).
    destruct (IH (recs ++ [tool_record call t]) (blocks ++ [tool_result call t])
                 {| world := w1; log := log m ++ evs1 |})
      as (texts & w2 & evs2 & Hrun & Hlen & Hevs2).
    exists (t :: texts), w2, (evs1 ++ evs2).
    rewrite Hrun. cbn [log zip_with length].
    rewrite <- !app_assoc. cbn [app]. split; [reflexivity |].
    split; [now rewrite Hlen |].
    rewrite sampling_requests_app, Hevs2, app_nil_r.
    destruct Hevs1 as [-> | (expr & _ & ->)]; reflexivity.
Qed.

(** What one pass of the loop body asks of the client, and what it returns. *)
Lemma loopBody_cases (a : Args) (it : Z) (st : LoopState) (m : Machine World) :
  let request := build_request a it (conversationHistory st) in
  let sent := log m ++ [EvSampling request (result_schema a it)] in
  match sendRequest request (result_schema a it) (world m) with
  | (inl e, w) => loopBody a it st m = (Threw e, {| world := w; log := sent |})
  | (inr result, w) =>
      if stop_is_toolUse result && (0 <? length (extractToolCalls (result_content result)))%nat
      then
        exists texts w' evs,
          let calls := extractToolCalls (result_content result) in
          loopBody a it st m =
            (Returned (Continue
               {| conversationHistory :=
                    conversationHistory st ++
                      [ {| role := assistant; content := result_content result |};
                        {| role := user;
                           content := Many (zip_with tool_result calls texts) |} ];
                  iterationResults :=
                    iterationResults st ++
                      [ {| iteration := it + 1; ir_stopReason := stopReason result;
                           toolCalls := Some (zip_with tool_record calls texts);
                           textResponse := None |} ] |}),
             {| world := w'; log := sent ++ evs |}) /\
          length texts = length calls /\
          sampling_requests evs = []
      else
        loopBody a it st m =
          (Returned (finish
             {| iteration := it + 1; ir_stopReason := stopReason result;
                toolCalls := None; textResponse := None |} result st),
           {| world := w; log := sent |})
  end.
Proof.
  intros request sent. unfold loopBody. fold request.
  rewrite bind_run, send_run. fold sent.
  destruct (sendRequest request (result_schema a it) (world m)) as [[e | result] w];
    [reflexivity |].
  destruct (stop_is_toolUse result); cbn [andb]; [| reflexivity].
  destruct (0 <? length (extractToolCalls (result_content result)))%nat; [| reflexivity].
  destruct (executeToolCalls_returns (extractToolCalls (result_content result)) [] []
              {| world := w; log := sent |}) as (texts & w' & evs & Hrun & Hlen & Hevs).
  exists texts, w', evs. cbn zeta. rewrite bind_run, Hrun. cbn [fst snd app log].
  unfold ret. rewrite <- app_assoc. cbn [app]. auto.
Qed.

Lemma number_lt_ceiling (it : Z) (q : Q) :
  number_lt (inject_Z it) q = true <-> it < Qceiling q.
Proof.
  unfold number_lt. rewrite negb_true_iff, <- not_true_iff_false, Qle_bool_iff.
  split.
  - intros Hlt. apply Qnot_le_lt in Hlt.
    rewrite Zlt_Qlt. eapply Qlt_le_trans; [exact Hlt | apply Qle_ceiling].
  - intros Hlt. apply Qlt_not_le.
    eapply Qle_lt_trans; [| apply Qceiling_lt].
    rewrite <- Zle_Qle. lia.
Qed.

(** The requests of a run of the loop: one per iteration, each built for
    its own iteration number, and no more than the iterations left. *)
Lemma agentLoop_requests (a : Args) (fuel : nat) :
  forall (it : Z) (st : LoopState) (m : Machine World),
  Qceiling (maxIterations a) - it <= Z.of_nat fuel ->
  exists out m' reqs,
    agentLoop a fuel it st m = (out, m') /\
    out <> OutOfFuel /\
    sampling_requests (log m') = sampling_requests (log m) ++ reqs /\
    Z.of_nat (length reqs) <= Z.max 0 (Qceiling (maxIterations a) - it) /\
    (forall (j : nat) r, reqs !! j = Some r ->
       exists h, r = build_request a (it + Z.of_nat j) h).
Proof.
  induction fuel as [| fuel IH]; intros it st m Hfuel.
  - assert (Hstop : number_lt (inject_Z it) (maxIterations a) = false).
    { apply not_true_iff_false. rewrite number_lt_ceiling. lia. }
    exists (Returned st), m, []. cbn [agentLoop]. rewrite Hstop, app_nil_r.
    repeat split; [discriminate | cbn; lia | intros j r Hj; discriminate].
  - cbn [agentLoop].
    destruct (number_lt (inject_Z it) (maxIterations a)) eqn:Hlt.
    2:{ exists (Returned st), m, []. rewrite app_nil_r.
        repeat split; [discriminate | cbn; lia | intros j r Hj; discriminate]. }
    apply number_lt_ceiling in Hlt.
    rewrite bind_run.
    pose proof (loopBody_cases a it st m) as Hbody. cbn zeta in Hbody.
    set (request := build_request a it (conversationHistory st)) in *.
    destruct (sendRequest request (result_schema a it) (world m)) as [[e | result] w].
    + rewrite Hbody. exists (Threw e), {| world := w; log := log m ++ [EvSampling request (result_schema a it)] |}, [request].
      cbn [log]. rewrite sampling_requests_app.
      repeat split; [discriminate | cbn; lia |].
      intros [| j] r Hj; [| destruct j; discriminate].
      injection Hj as <-. exists (conversationHistory st). now rewrite Z.add_0_r.
    + destruct (stop_is_toolUse result &&
                (0 <? length (extractToolCalls (result_content result)))%nat).
      * destruct Hbody as (texts & w' & evs & -> & _ & Hevs).
        match goal with
        | |- context [agentLoop a fuel (it + 1) ?st' ?m'] =>
            destruct (IH (it + 1) st' m') as (out & m2 & reqs & Hrun & Hout & Hlog & Hlen & Hreq);
              [lia |]
        end.
        exists out, m2, (request :: reqs). rewrite Hrun.
        split; [reflexivity |]. split; [exact Hout |].
        split.
        { rewrite Hlog. cbn [log]. rewrite !sampling_requests_app, Hevs, app_nil_r.
          now rewrite <- app_assoc. }
        split; [cbn [length]; lia |].
        intros [| j] r Hj.
        { injection Hj as <-. exists (conversationHistory st). now rewrite Z.add_0_r. }
        destruct (Hreq j r Hj) as [h ->]. exists h. f_equal. lia.
      * rewrite Hbody. cbn [finish].
        eexists (Returned _), {| world := w; log := log m ++ [EvSampling request (result_schema a it)] |}, [request].
        cbn [log]. rewrite sampling_requests_app.
        repeat split; [discriminate | cbn; lia |].
        intros [| j] r Hj; [| destruct j; discriminate].
        injection Hj as <-. exists (conversationHistory st). now rewrite Z.add_0_r.
Qed.

Lemma ceiling_of_integer (q : Q) (M : Z) : (q == inject_Z M)%Q -> Qceiling q = M.
Proof.
  intros Hq. apply Z.le_antisymm.
  - rewrite <- (Qceiling_Z M). apply Qceiling_resp_le. rewrite Hq. apply Qle_refl.
  - rewrite <- (Qceiling_Z M). apply Qceiling_resp_le. rewrite Hq. apply Qle_refl.
Qed.

(** [iteration === maxIterations - 1] singles out the last round. *)
Lemma last_round (q : Q) (M it : Z) :
  (q == inject_Z M)%Q -> number_eq (inject_Z it) (q - 1) = bool_decide (it = M - 1).
Proof.
  intros Hq. unfold number_eq. rewrite Hq.
  case_bool_decide as Hit.
  - subst it. apply Qeq_bool_iff. unfold Qeq, Qminus, Qplus, Qopp, inject_Z. cbn. lia.
  - apply not_true_iff_false. rewrite Qeq_bool_iff.
    unfold Qeq, Qminus, Qplus, Qopp, inject_Z. cbn. lia.
Qed.

(** Whole-number limits. With [includeTools] and [maxIterations] a whole
    number [M >= 1] the handler sends at most [M] sampling requests; the
    request of round [M], if the run gets there, carries neither the tool
    catalog nor a tool choice, whatever mode the caller chose; the requests
    of the rounds before carry both. The run needs no more iterations than
    the loop allows. *)
Theorem agent_loop_bounded_last_round_tool_free (a : Args) (M : Z) (w : World) :
  includeTools a = true ->
  (maxIterations a == inject_Z M)%Q ->
  1 <= M ->
  let run := handler a (start w) in
  let requests := sampling_requests (log run.2) in
  run.1 <> OutOfFuel /\
  (length requests <= Z.to_nat M)%nat /\
  (forall r, requests !! Z.to_nat (M - 1) = Some r ->
     tools r = None /\ toolChoice r = None) /\
  (forall (j : nat) r, (j < Z.to_nat (M - 1))%nat -> requests !! j = Some r ->
     tools r = Some sampleTools /\ toolChoice r = Some (args_toolChoice a)).
Proof.
  intros Hinc HM Hpos run requests.
  pose proof (ceiling_of_integer _ _ HM) as Hceil.
  destruct (agentLoop_requests a (loop_fuel a) 0
              {| conversationHistory := [seed a]; iterationResults := [] |} (start w))
    as (out & m' & reqs & Hrun & Hout & Hlog & Hlen & Hreq).
  { unfold loop_fuel. lia. }
  assert (Hreqs : requests = reqs /\ run.1 <> OutOfFuel).
  { subst requests run. unfold handler. rewrite Hinc. cbn [negb].
    rewrite bind_run. unfold runAgentLoop. rewrite Hrun.
    destruct out as [st | e |]; cbn [fst snd log]; [| | congruence].
    - split; [exact Hlog | discriminate].
    - split; [exact Hlog | discriminate]. }
  destruct Hreqs as [-> Hfuel]. rewrite Hceil in Hlen.
  split; [exact Hfuel |]. split; [lia |]. split.
  - intros r Hr. destruct (Hreq _ _ Hr) as [h ->].
    unfold build_request. cbn [tools toolChoice].
    rewrite (last_round _ M) by exact HM.
    rewrite bool_decide_eq_true_2 by lia. auto.
  - intros j r Hj Hr. destruct (Hreq _ _ Hr) as [h ->].
    unfold build_request. cbn [tools toolChoice].
    rewrite (last_round _ M) by exact HM.
    rewrite bool_decide_eq_false_2 by lia. auto.
Qed.

(** C9. With [includeTools] and [maxIterations <= 0] the loop body never
    runs: nothing is asked of the client, the report lists no iteration
    (total 0) and its final response is the text "No final response". *)
Theorem no_iterations_no_final_response (a : Args) (w : World) :
  includeTools a = true ->
  (maxIterations a <= 0)%Q ->
  handler a (start w) =
    (Returned
       {| text :=
            join nl
              [ js "=== Enhanced Sampling Agent Loop Result ===";
                [];
                js "Total Iterations: 0";
                js "Tool Choice Mode: " ++ mode_name (args_toolChoice a);
                [];
                js "--- Iteration Details ---";
                [];
                js "--- Final Response ---";
                js "No final response" ];
          isError := None |},
     start w).
Proof.
  intros Hinc Hle.
  assert (Hstop : number_lt (inject_Z 0) (maxIterations a) = false).
  { unfold number_lt. apply negb_false_iff, Qle_bool_iff. exact Hle. }
  unfold handler. rewrite Hinc. cbn [negb].
  rewrite bind_run. unfold runAgentLoop.
  assert (Hloop : forall fuel st m, agentLoop a fuel 0 st m = (Returned st, m)).
  { intros [| fuel] st m; cbn [agentLoop]; now rewrite Hstop. }
  rewrite Hloop. reflexivity.
Qed.




Lemma exprChar_grammar (c : N) :
  exprChar c = true <->
  (In c (js "0123456789") \/ In c (js "+-*/%") \/ In c (js "()") \/
   In c (js ".") \/ isWhiteSpace c = true).
Proof.
  unfold exprChar, isDigit, isOperator, isParen, isDot.
  rewrite !orb_true_iff, !existsb_exists.
  assert (Hin : forall l, (exists x, In x l /\ (c =? x)%N = true) <-> In c l).
  { intros l. split.
    - intros (x & Hx & Heq). apply N.eqb_eq in Heq. now subst.
    - intros Hc. exists c. split; [exact Hc | apply N.eqb_refl]. }
  rewrite !Hin. tauto.
Qed.

(** The pattern accepts exactly the non-empty strings of digits, the five
    operators, parentheses, dots and white space. *)
Lemma test_expression_grammar (expr : jsstring) :
  test_expression expr = true <-> accepted_grammar expr.
Proof.
  unfold test_expression, accepted_grammar.
  destruct expr as [| c rest].
  - split; [discriminate | intros [Hne _]; now destruct Hne].
  - rewrite forallb_forall, List.Forall_forall.
    split.
    + intros Hall. split; [discriminate |].
      intros x Hx. apply exprChar_grammar. now apply Hall.
    + intros [_ Hall] x Hx. apply exprChar_grammar. now apply Hall.
Qed.

(** C7. On every input [calculate] returns a text and never throws. The
    expression is first converted to text; when that conversion throws,
    nothing is evaluated and the answer is the could-not-evaluate marker.
    Otherwise the only source ever handed to the evaluator wraps an
    expression that passed the pattern; an expression outside the grammar
    is answered with the invalid-expression marker without any evaluation,
    and an evaluation that throws with the could-not-evaluate marker. *)
Theorem calculate_validates_then_evaluates (input : JSObject) (m : Machine World) :
  let run := executeMockTool (js "calculate") input m in
  exists text evs,
    run.1 = Returned text /\
    log run.2 = log m ++ evs /\
    match String_ (get_prop input (js "expression")) with
    | inl _ =>
        evs = [] /\ text = js "Error: Could not evaluate expression"
    | inr expr =>
        (forall source, In source (evaluated_sources evs) ->
           source = function_source expr /\ accepted_grammar expr) /\
        (~ accepted_grammar expr ->
           evs = [] /\
           text = js "Error: Invalid expression. Only basic math operations allowed.") /\
        (forall e w, accepted_grammar expr ->
           Function_call (function_source expr) (world m) = (inl e, w) ->
           text = js "Error: Could not evaluate expression") /\
        (forall r w, accepted_grammar expr ->
           Function_call (function_source expr) (world m) = (inr r, w) ->
           text = js "Result: " ++ r)
    end.
Proof.
  intros run. subst run. unfold executeMockTool.
  replace (jsstring_eqb (js "calculate") (js "get_weather")) with false by reflexivity.
  replace (jsstring_eqb (js "calculate") (js "calculate")) with true by reflexivity.
  rewrite try_completion.
  destruct (String_ (get_prop input (js "expression"))) as [err | expr].
  { exists (js "Error: Could not evaluate expression"), [].
    unfold ret. cbn [fst snd]. rewrite app_nil_r. auto. }
  unfold try_catch.
  destruct (test_expression expr) eqn:Htest; cbn [negb].
  - apply test_expression_grammar in Htest.
    rewrite bind_run. unfold evaluate. rewrite bind_run.
    unfold record, host_call. cbn [world log].
    assert (Hsrc : forall source,
              In source (evaluated_sources [EvEvaluate (function_source expr)]) ->
              source = function_source expr /\ accepted_grammar expr).
    { intros source [<- | []]. now split. }
    destruct (Function_call (function_source expr) (world m)) as [[e | r] w1] eqn:Hcall;
      cbn [fst snd log].
    + exists (js "Error: Could not evaluate expression"), [EvEvaluate (function_source expr)].
      unfold ret. cbn [fst snd log].
      split; [reflexivity |]. split; [reflexivity |]. split; [exact Hsrc |].
      split; [intros Hno; now destruct Hno |].
      split; [reflexivity |]. intros r w2 _ Hr. discriminate.
    + exists (js "Result: " ++ r), [EvEvaluate (function_source expr)].
      unfold ret. cbn [fst snd log].
      split; [reflexivity |]. split; [reflexivity |]. split; [exact Hsrc |].
      split; [intros Hno; now destruct Hno |].
      split; [intros e w2 _ He; discriminate |].
      intros r' w2 _ Hr. now injection Hr as <- _.
  - assert (Hno : ~ accepted_grammar expr).
    { rewrite <- test_expression_grammar, Htest. discriminate. }
    exists (js "Error: Invalid expression. Only basic math operations allowed."), [].
    unfold ret. cbn [fst snd]. rewrite app_nil_r.
    split; [reflexivity |]. split; [reflexivity |].
    split; [intros source [] |].
    split; [now split |].
    split; [intros e w Hyes; now destruct Hno | intros r w Hyes; now destruct Hno].
Qed.

(** C8. A tool name outside [get_weather], [calculate], [get_time] is
    answered, whatever the input, with the text "Unknown tool: " followed by
    the name; nothing is thrown and nothing is asked of the world. *)
Theorem unknown_tool_gets_text (name : jsstring) (input : JSObject) (m : Machine World) :
  name <> js "get_weather" ->
  name <> js "calculate" ->
  name <> js "get_time" ->
  executeMockTool name input m = (Returned (js "Unknown tool: " ++ name), m).
Proof.
  intros Hw Hc Ht. unfold executeMockTool, jsstring_eqb.
  rewrite !bool_decide_eq_false_2 by assumption. reflexivity.
Qed.
End ToolFacts.

Lemma agent_loop_bounded_witness :
  let run := handler (Scenario.args 2)
               (start [Scenario.wants_tools; Scenario.final_answer]) in
  let requests := sampling_requests (log run.2) in
  run.1 <> OutOfFuel /\
  (length requests <= Z.to_nat 2)%nat /\
  (forall r, requests !! Z.to_nat (2 - 1) = Some r ->
     tools r = None /\ toolChoice r = None) /\
  (forall (j : nat) r, (j < Z.to_nat (2 - 1))%nat -> requests !! j = Some r ->
     tools r = Some sampleTools /\ toolChoice r = Some required).
Proof.
  apply (agent_loop_bounded_last_round_tool_free (Scenario.args 2) 2
           [Scenario.wants_tools; Scenario.final_answer]);
    [reflexivity | reflexivity | lia].
Defined.

Lemma no_iterations_witness :
  handler (Scenario.args 0) (start [Scenario.wants_tools]) =
    (Returned
      {| text :=
           join nl
             [ js "=== Enhanced Sampling Agent Loop Result ===";
               [];
               js "Total Iterations: 0";
               js "Tool Choice Mode: required";
               [];
               js "--- Iteration Details ---";
               [];
               js "--- Final Response ---";
               js "No final response" ];
         isError := None |},
     start [Scenario.wants_tools]).
Proof.
  apply (no_iterations_no_final_response (Scenario.args 0) [Scenario.wants_tools]);
    [reflexivity | unfold Qle; cbn; lia].
Defined.


Lemma unknown_tool_witness :
  executeMockTool (js "launch_rocket") [] (start [Scenario.final_answer])
    = (Returned (js "Unknown tool: launch_rocket"), start [Scenario.final_answer]).
Proof.
  apply (unknown_tool_gets_text (js "launch_rocket") [] (start [Scenario.final_answer]));
    discriminate.
Defined.

(** The registration looks at the [sampling] capability alone. *)
Lemma registered_when_sampling_declared {World : Type} `{Host World}
    (server : McpServer) (caps : ClientCapabilities) (s : SamplingCapability) :
  getClientCapabilities server = Some caps ->
  sampling caps = Some s ->
  registeredTools (registerTriggerEnhancedSamplingTool server) !! tool_name_ = Some handler.
Proof.
  intros Hcaps Hs. unfold registerTriggerEnhancedSamplingTool. cbv zeta.
  rewrite Hcaps. cbn [from_option id].
  rewrite bool_decide_eq_true_2 by (rewrite Hs; discriminate).
  cbn [negb registerTool registeredTools]. apply lookup_insert_eq.
Qed.

(** C6, amended. When the client has not declared the sampling capability
    the registration leaves the server as it was: the tool is not in the
    tool table, a call to it finds no callback, so no agent loop starts and
    nothing is asked of the client. *)
Theorem tool_absent_without_sampling {World : Type} `{Host World}
    (server : McpServer) (a : Args) (m : Machine World) :
  getClientCapabilities server ≫= sampling = None ->
  registeredTools server !! tool_name_ = None ->
  registerTriggerEnhancedSamplingTool server = server /\
  callTool (registerTriggerEnhancedSamplingTool server) tool_name_ a m = NoSuchTool.
Proof.
  intros Hcaps Hfree.
  assert (Hsame : registerTriggerEnhancedSamplingTool server = server).
  { unfold registerTriggerEnhancedSamplingTool. cbv zeta.
    destruct (getClientCapabilities server) as [caps |]; cbn in Hcaps; cbn [from_option id].
    - now rewrite bool_decide_eq_false_2 by (rewrite Hcaps; intros Hne; now destruct Hne).
    - now rewrite bool_decide_eq_false_2 by (intros Hne; now destruct Hne). }
  split; [exact Hsame |]. rewrite Hsame. unfold callTool, Eff in *. now rewrite Hfree.
Qed.

Lemma tool_absent_witness :
  registerTriggerEnhancedSamplingTool (Scenario.fresh_server (Some Scenario.no_sampling))
    = Scenario.fresh_server (Some Scenario.no_sampling) /\
  callTool (registerTriggerEnhancedSamplingTool
              (Scenario.fresh_server (Some Scenario.no_sampling)))
    tool_name_ (Scenario.args 2) (start [Scenario.wants_tools]) = NoSuchTool.
Proof.
  apply (tool_absent_without_sampling (Scenario.fresh_server (Some Scenario.no_sampling))
           (Scenario.args 2) (start [Scenario.wants_tools])); reflexivity.
Defined.

(** C6, counterexample. For a client without sampling a tool-augmented run
    is asked for and no error result comes back from the tool, because the
    tool is not there to produce one. *)
Lemma no_capability_error_without_sampling :
  let server :=
    registerTriggerEnhancedSamplingTool
      (Scenario.fresh_server (Some Scenario.no_sampling)) in
  let outcome := callTool server tool_name_ (Scenario.args 2) (start [Scenario.wants_tools]) in
  includeTools (Scenario.args 2) = true /\
  sampling Scenario.no_sampling = None /\
  outcome = NoSuchTool /\
  ~ exists result m', outcome = Ran (Returned result) m' /\ isError result = Some true.
Proof.
  cbn zeta.
  assert (Hout : callTool
            (registerTriggerEnhancedSamplingTool
               (Scenario.fresh_server (Some Scenario.no_sampling)))
            tool_name_ (Scenario.args 2) (start [Scenario.wants_tools]) = NoSuchTool)
    by reflexivity.
  split; [reflexivity |]. split; [reflexivity |]. split; [exact Hout |].
  rewrite Hout. intros (result & m' & Hran & _). discriminate.
Qed.

(** A client that declares [sampling] without its [tools] sub-capability
    gets the tool all the same: the call runs the loop and the first request
    carries the tool catalog. *)
Lemma sampling_without_tools_runs_loop :
  let server :=
    registerTriggerEnhancedSamplingTool
      (Scenario.fresh_server (Some Scenario.sampling_without_tools)) in
  exists result m',
    callTool server tool_name_ (Scenario.args 2)
      (start [Scenario.wants_tools; Scenario.final_answer]) = Ran (Returned result) m' /\
    isError result = None /\
    tools <$> sampling_requests (log m') = [Some sampleTools; None].
Proof.
  eexists _, _. split; [vm_compute; reflexivity |].
  split; reflexivity.
Qed.

(** C1. The loop counts in whole steps, while the input schema accepts any
    number. At the limit 3/2 the handler sends two requests, more than the
    limit, and no round is the round [maxIterations - 1]: both requests
    carry the tool catalog and the caller's tool choice, so the last
    permitted round is not free of tools. *)
Theorem fractional_limit_has_no_tool_free_round :
  let a :=
    {| prompt := js "hi"; args_maxTokens := 100; args_systemPrompt := None;
       includeTools := true; args_toolChoice := auto; maxIterations := 3 # 2 |} in
  let run := handler a (start [Scenario.wants_tools; Scenario.wants_tools]) in
  let requests := sampling_requests (log run.2) in
  (1 <= maxIterations a)%Q /\
  length requests = 2%nat /\
  (maxIterations a < inject_Z (Z.of_nat (length requests)))%Q /\
  Forall (fun r => tools r = Some sampleTools /\ toolChoice r = Some auto) requests.
Proof.
  cbv zeta.
  split; [unfold Qle; cbn; lia |].
  split; [reflexivity |].
  split; [now vm_compute |].
  vm_compute. repeat constructor.
Qed.



Section StreamableFacts.
Import StreamableHttp.
Context {World : Type} `{Sdk World}.

Lemma given_true (sessionId : option jsstring) :
  given sessionId = true <-> exists sid, sessionId = Some sid /\ sid <> [].
Proof.
  destruct sessionId as [[| c sid] |]; cbn; split; try discriminate.
  - intros (sid & Heq & Hne). injection Heq as <-. now destruct Hne.
  - intros _. eexists. split; [reflexivity | discriminate].
  - intros _. reflexivity.
  - intros (sid & Heq & _). discriminate.
Qed.

Lemma has_false (st : State) (sid : jsstring) :
  transports st !! sid = None -> has st (Some sid) = false.
Proof.
  intros Hno. cbn. apply bool_decide_eq_false_2. rewrite Hno. now intros [t Ht].
Qed.

(** C4, amended. A POST, GET or DELETE on [/mcp] whose session header is
    not empty and names no entry of the transports map, and a GET or DELETE
    whose header is missing or empty, is answered with status 400 and the
    body [{ jsonrpc, error: { code: -32000, message }, id }], where [id] is
    the id of the request body; the map, the trace and the world are left
    as they were. *)
Theorem unknown_session_gets_bad_request
    (method : Method) (req : Request) (st : State) (w : World) :
  (exists sid, mcp_session_id req = Some sid /\ sid <> [] /\ transports st !! sid = None) \/
  (method <> POST /\ (mcp_session_id req = None \/ mcp_session_id req = Some [])) ->
  route method req st w =
    ({| response :=
          Some (Json 400
                  {| jsonrpc := js "2.0"; code := -32000;
                     message := js "Bad Request: No valid session ID provided";
                     id := body_id req |});
        rejected := None |}, st, w).
Proof.
  intros [(sid & Hsid & Hne & Hno) | (Hmethod & Habsent)].
  - assert (Hgiven : given (mcp_session_id req) = true).
    { apply given_true. now exists sid. }
    assert (Hhas : has st (mcp_session_id req) = false).
    { rewrite Hsid. now apply has_false. }
    destruct method; cbn [route]; unfold post_mcp, get_mcp, delete_mcp;
      rewrite Hgiven, Hhas; reflexivity.
  - assert (Hgiven : given (mcp_session_id req) = false).
    { destruct Habsent as [-> | ->]; reflexivity. }
    destruct method; [now destruct Hmethod | |]; cbn [route];
      unfold get_mcp, delete_mcp; rewrite Hgiven; reflexivity.
Qed.
End StreamableFacts.

Lemma unknown_session_witness :
  StreamableHttp.route StreamableHttp.DELETE Scenario.unknown_session StreamableHttp.initial tt =
    ({| StreamableHttp.response :=
          Some (StreamableHttp.Json 400
                  {| StreamableHttp.jsonrpc := js "2.0"; StreamableHttp.code := -32000;
                     StreamableHttp.message := js "Bad Request: No valid session ID provided";
                     StreamableHttp.id := Some (JNum 7) |});
        StreamableHttp.rejected := None |}, StreamableHttp.initial, tt).
Proof.
  apply (unknown_session_gets_bad_request StreamableHttp.DELETE Scenario.unknown_session
           StreamableHttp.initial tt).
  left. exists (js "no-such-session"). split; [reflexivity |]. split; [discriminate |].
  reflexivity.
Defined.

(** C4, counterexample. A POST whose session header is there but empty names
    no entry of the map, and yet is taken for a request without a session:
    with an SDK that initializes, it opens and registers a new session and
    the answer is not the 400 error. *)
Lemma empty_session_header_opens_session :
  let req := Scenario.initialize_with_empty_header in
  let st := StreamableHttp.initial in
  let served := StreamableHttp.route StreamableHttp.POST req st tt in
  StreamableHttp.mcp_session_id req = Some [] /\
  StreamableHttp.transports st !! ([] : jsstring) = None /\
  StreamableHttp.response served.1.1 <> Some (StreamableHttp.bad_request req) /\
  StreamableHttp.transports served.1.2 !! Scenario.minted
    = Some {| StreamableHttp.handle := 0; StreamableHttp.sessionId := Some Scenario.minted |} /\
  StreamableHttp.transports served.1.2 <> StreamableHttp.transports st.
Proof.
  cbn zeta. split; [reflexivity |]. split; [reflexivity |].
  split; [vm_compute; discriminate |].
  assert (Hreg : StreamableHttp.transports
            (StreamableHttp.route StreamableHttp.POST Scenario.initialize_with_empty_header
               StreamableHttp.initial tt).1.2 !! Scenario.minted
          = Some {| StreamableHttp.handle := 0;
                    StreamableHttp.sessionId := Some Scenario.minted |}).
  { vm_compute. reflexivity. }
  split; [exact Hreg |].
  intros Heq. rewrite Heq in Hreg. vm_compute in Hreg. discriminate.
Qed.

Section StreamableOrder.
Import StreamableHttp.
Context {World : Type} `{Sdk World}.

Lemma registered_after_connect_snoc (tr : list Ev) (ev : Ev) :
  registered_after_connect tr ->
  (forall sid h, ev = EvRegistered sid h -> EvConnected h ∈ tr) ->
  registered_after_connect (tr ++ [ev]).
Proof.
  intros Htr Hev i sid h Hi.
  destruct (decide (i < length tr)%nat) as [Hlt | Hge].
  - rewrite lookup_app_l in Hi by exact Hlt.
    destruct (Htr i sid h Hi) as (j & Hj & Hconn).
    exists j. split; [exact Hj |]. rewrite lookup_app_l by lia. exact Hconn.
  - rewrite lookup_app_r in Hi by lia.
    destruct (i - length tr)%nat as [| k] eqn:Hk; [| destruct k; discriminate].
    injection Hi as ->.
    destruct (proj1 (list_elem_of_lookup _ _) (Hev sid h eq_refl)) as [j Hj].
    exists j. split.
    + apply lookup_lt_Some in Hj. lia.
    + rewrite lookup_app_l by (eapply lookup_lt_Some; exact Hj). exact Hj.
Qed.

Lemma emit_keeps (ev : Ev) (st : State) :
  connected_before_registered st ->
  (forall sid h, ev <> EvRegistered sid h) ->
  connected_before_registered (emit ev st).
Proof.
  intros [Htr Hmap] Hev. split; cbn [emit trace transports].
  - apply registered_after_connect_snoc; [exact Htr |].
    intros sid h Heq. now destruct (Hev sid h).
  - intros sid t Ht. apply elem_of_app. left. eauto.
Qed.

Lemma onsessioninitialized_keeps (sid : jsstring) (t : Transport) (st : State) :
  connected_before_registered st ->
  EvConnected (handle t) ∈ trace st ->
  connected_before_registered (onsessioninitialized sid t st).
Proof.
  intros [Htr Hmap] Hconn. split; cbn [onsessioninitialized emit trace transports].
  - apply registered_after_connect_snoc; [exact Htr |].
    intros sid' h Heq. now injection Heq as _ <-.
  - intros sid' t' Ht'. apply elem_of_app. left.
    destruct (decide (sid = sid')) as [<- | Hne].
    + rewrite lookup_insert_eq in Ht'. now injection Ht' as <-.
    + rewrite lookup_insert_ne in Ht' by exact Hne. eauto.
Qed.

Lemma onclose_keeps (t : Transport) (st : State) :
  connected_before_registered st -> connected_before_registered (onclose t st).
Proof.
  intros Hst. unfold onclose.
  destruct (sessionId t) as [sid |]; [| exact Hst].
  destruct (truthy sid && has st (Some sid)); [| exact Hst].
  apply emit_keeps; [| discriminate]. apply emit_keeps; [| discriminate].
  destruct Hst as [Htr Hmap]. split; cbn [trace transports]; [exact Htr |].
  intros sid' t' Ht'. apply lookup_delete_Some in Ht' as [_ Ht']. eauto.
Qed.

Lemma run_transport_keeps (t : Transport) (req : Request) (st : State) (w : World) :
  connected_before_registered st ->
  EvConnected (handle t) ∈ trace st ->
  connected_before_registered (run_transport t req st w).1.2.
Proof.
  intros Hst Hconn. unfold run_transport.
  destruct (handleRequest t req w) as [h w'].
  assert (Hst1 : connected_before_registered (emit (EvHandleRequest (handle t)) st))
    by (apply emit_keeps; [exact Hst | discriminate]).
  assert (Hconn1 : EvConnected (handle t) ∈ trace (emit (EvHandleRequest (handle t)) st))
    by (cbn [emit trace]; apply elem_of_app; now left).
  destruct (initialized h) as [sid |]; cbn [fst snd].
  - destruct (closed h); cbn [fst snd].
    + apply onclose_keeps. now apply onsessioninitialized_keeps.
    + now apply onsessioninitialized_keeps.
  - destruct (closed h); cbn [fst snd]; [now apply onclose_keeps | exact Hst1].
Qed.

Lemma known_transport_connected (st : State) (sessionId : option jsstring) (t : Transport) :
  connected_before_registered st -> get st sessionId = Some t ->
  EvConnected (handle t) ∈ trace st.
Proof.
  intros [_ Hmap] Hget. destruct sessionId as [sid |]; [| discriminate].
  cbn in Hget. eauto.
Qed.

Lemma route_keeps (method : Method) (req : Request) (st : State) (w : World) :
  connected_before_registered st ->
  connected_before_registered (route method req st w).1.2.
Proof.
  intros Hst. destruct method; cbn [route].
  - unfold post_mcp.
    destruct (given (mcp_session_id req) && has st (mcp_session_id req)).
    { destruct (get st (mcp_session_id req)) as [t |] eqn:Hget; [| exact Hst].
      pose proof (run_transport_keeps t req st w Hst
                    (known_transport_connected _ _ _ Hst Hget)) as Hrun.
      destruct (run_transport t req st w) as [[h st'] w']. exact Hrun. }
    destruct (negb (given (mcp_session_id req))); [| exact Hst].
    set (st1 := emit (EvNewTransport _) _).
    assert (Hst1 : connected_before_registered st1).
    { subst st1. apply emit_keeps; [| discriminate].
      pose proof (emit_keeps EvCreateServer st Hst) as [Htr Hmap]; [discriminate |].
      split; [exact Htr | exact Hmap]. }
    destruct (connect _ w) as [[e |] w1]; [exact Hst1 |].
    match goal with
    | |- context [run_transport ?t req ?st2 w1] =>
        pose proof (run_transport_keeps t req st2 w1) as Hrun;
        destruct (run_transport t req st2 w1) as [[h st'] w']
    end.
    apply Hrun.
    + apply emit_keeps; [exact Hst1 | discriminate].
    + cbn [emit trace handle]. apply elem_of_app. right. apply list_elem_of_singleton.
      reflexivity.
  - unfold get_mcp.
    destruct (negb (given (mcp_session_id req)) || negb (has st (mcp_session_id req)));
      [exact Hst |].
    destruct (get st (mcp_session_id req)) as [t |] eqn:Hget; [| exact Hst].
    pose proof (run_transport_keeps t req st w Hst
                  (known_transport_connected _ _ _ Hst Hget)) as Hrun.
    destruct (run_transport t req st w) as [[h st'] w']. exact Hrun.
  - unfold delete_mcp.
    destruct (negb (given (mcp_session_id req)) || negb (has st (mcp_session_id req)));
      [exact Hst |].
    destruct (get st (mcp_session_id req)) as [t |] eqn:Hget; [| exact Hst].
    pose proof (run_transport_keeps t req st w Hst
                  (known_transport_connected _ _ _ Hst Hget)) as Hrun.
    destruct (run_transport t req st w) as [[h st'] w']. exact Hrun.
Qed.

Lemma serve_keeps (reqs : list (Method * Request)) :
  forall (st : State) (w : World),
  connected_before_registered st ->
  connected_before_registered (serve reqs st w).1.
Proof.
  induction reqs as [| [method req] reqs IH]; intros st w Hst; [exact Hst |].
  unfold serve. cbn [foldl].
  pose proof (route_keeps method req st w Hst) as Hstep.
  destruct (route method req st w) as [[r st'] w']. now apply IH.
Qed.
End StreamableOrder.

Section SseFacts.
Import Sse.
Context {World : Type} `{Sdk World}.

(** A first connect registers the transport, then connects it. *)
Lemma get_sse_registers_then_connects (req : Request) (st : State) (w : World) :
  given (query_sessionId req) = false ->
  exists sid rest,
    let h := next_handle st in
    let st' := (get_sse req st w).1.2 in
    trace st' = trace st ++ [EvCreateServer; EvNewTransport h; EvRegistered sid h] ++ rest /\
    (rest = [] \/ rest = [EvConnected h]) /\
    transports st' = <[sid := {| handle := h; sessionId := sid |}]> (transports st).
Proof.
  intros Hgiven. unfold get_sse. rewrite Hgiven.
  cbn [emit next_handle transports trace].
  destruct (new_SSEServerTransport w) as [sid w1].
  cbn [emit next_handle transports trace handle].
  destruct (connect _ w1) as [[e |] w2]; cbn [fst snd emit trace transports].
  - exists sid, []. rewrite <- !app_assoc. cbn [app]. auto.
  - exists sid, [EvConnected (next_handle st)]. rewrite <- !app_assoc. cbn [app]. auto.
Qed.

(** C10, amended. In the push-only variant a GET on [/sse] whose
    [sessionId] query value is truthy (a non-empty string, or an array or
    object) creates and registers nothing: the map is unchanged, the only
    effect is the [createServer] call, and the handler writes no response.
    When the value is no key of the map the lookup is [undefined], reading
    its [sessionId] throws a TypeError, the handler's promise is rejected,
    and where that error reaches the error middleware the answer is a 500,
    not a 400. *)
Theorem sse_get_with_session_id (req : Request) (st : State) (w : World) :
  given (query_sessionId req) = true ->
  let served := get_sse req st w in
  transports served.1.2 = transports st /\
  next_handle served.1.2 = next_handle st /\
  trace served.1.2 = trace st ++ [EvCreateServer] /\
  served.2 = w /\
  response served.1.1 = None /\
  (get st (query_sessionId req) = None ->
     rejected served.1.1 = Some undefined_sessionId /\
     forall cfg, er_status <$> handleAuthError cfg false undefined_sessionId = Some 500).
Proof.
  intros Hgiven served. subst served. unfold get_sse. rewrite Hgiven.
  replace (get (emit EvCreateServer st) (query_sessionId req))
    with (get st (query_sessionId req)) by reflexivity.
  destruct (get st (query_sessionId req)) as [t |]; cbn [fst snd emit transports next_handle trace response rejected].
  - repeat split; try reflexivity. discriminate.
  - repeat split; try reflexivity.
Qed.
End SseFacts.

Lemma sse_get_witness :
  let served := Sse.get_sse Scenario.sse_unknown Sse.initial tt in
  Sse.transports served.1.2 = Sse.transports Sse.initial /\
  Sse.next_handle served.1.2 = Sse.next_handle Sse.initial /\
  Sse.trace served.1.2 = Sse.trace Sse.initial ++ [Sse.EvCreateServer] /\
  served.2 = tt /\
  Sse.response served.1.1 = None /\
  (Sse.get Sse.initial (Sse.query_sessionId Scenario.sse_unknown) = None ->
     Sse.rejected served.1.1 = Some Sse.undefined_sessionId /\
     forall cfg, er_status <$> handleAuthError cfg false Sse.undefined_sessionId = Some 500).
Proof.
  apply (sse_get_with_session_id Scenario.sse_unknown Sse.initial tt).
  reflexivity.
Defined.

(** C10, counterexample. A GET that carries the parameter with an empty
    value, [/sse?sessionId=], is taken for a first connect: it creates and
    registers a new session, and nothing is dereferenced. *)
Lemma sse_empty_session_id_opens_session :
  let req := Scenario.sse_empty_parameter in
  let served := Sse.get_sse req Sse.initial tt in
  Sse.query_sessionId req = Some (Sse.QStr []) /\
  Sse.transports served.1.2 !! Scenario.minted
    = Some {| Sse.handle := 0; Sse.sessionId := Scenario.minted |} /\
  Sse.transports served.1.2 <> Sse.transports Sse.initial /\
  Sse.rejected served.1.1 = None.
Proof.
  cbn zeta. split; [reflexivity |].
  assert (Hreg : Sse.transports
            (Sse.get_sse Scenario.sse_empty_parameter Sse.initial tt).1.2
              !! Scenario.minted
          = Some {| Sse.handle := 0; Sse.sessionId := Scenario.minted |}).
  { vm_compute. reflexivity. }
  split; [exact Hreg |]. split; [| reflexivity].
  intros Heq. rewrite Heq in Hreg. vm_compute in Hreg. discriminate.
Qed.

(** C5, counterexample. In the push-only variant a first connect stores the
    transport in the map before [server.connect] is called. *)
Lemma sse_registers_before_connect :
  let st' := (Sse.get_sse Scenario.sse_first_connect Sse.initial tt).1.2 in
  Sse.trace st' =
    [Sse.EvCreateServer; Sse.EvNewTransport 0; Sse.EvRegistered Scenario.minted 0;
     Sse.EvConnected 0] /\
  ~ Sse.registered_after_connect (Sse.trace st').
Proof.
  cbn zeta.
  assert (Htrace : Sse.trace (Sse.get_sse Scenario.sse_first_connect Sse.initial tt).1.2 =
    [Sse.EvCreateServer; Sse.EvNewTransport 0; Sse.EvRegistered Scenario.minted 0;
     Sse.EvConnected 0]) by reflexivity.
  split; [exact Htrace |]. rewrite Htrace.
  intros Horder. destruct (Horder 2%nat Scenario.minted 0%nat eq_refl) as (j & Hj & Hconn).
  destruct j as [| [| j]]; [discriminate | discriminate | lia].
Qed.

(** C5, amended. In the resumable variant, over any sequence of requests
    from the empty map, a transport is registered only after its connect to
    the server has completed. In the push-only variant a GET without a
    truthy [sessionId] registers the new transport under its identifier
    first and connects it afterwards; the entry is in the map whether or
    not the connect succeeds. *)
Theorem registration_order
    {W1 : Type} `{StreamableHttp.Sdk W1} {W2 : Type} `{Sse.Sdk W2} :
  (forall (reqs : list (StreamableHttp.Method * StreamableHttp.Request)) (w : W1),
     StreamableHttp.registered_after_connect
       (StreamableHttp.trace (StreamableHttp.serve reqs StreamableHttp.initial w).1)) /\
  (forall (req : Sse.Request) (st : Sse.State) (w : W2),
     Sse.given (Sse.query_sessionId req) = false ->
     exists sid rest,
       let h := Sse.next_handle st in
       let st' := (Sse.get_sse req st w).1.2 in
       Sse.trace st' =
         Sse.trace st ++ [Sse.EvCreateServer; Sse.EvNewTransport h; Sse.EvRegistered sid h]
           ++ rest /\
       (rest = [] \/ rest = [Sse.EvConnected h]) /\
       Sse.transports st' = <[sid := {| Sse.handle := h; Sse.sessionId := sid |}]> (Sse.transports st)).
Proof.
  split.
  - intros reqs w.
    apply (serve_keeps reqs StreamableHttp.initial w).
    split.
    + intros i sid h Hi. destruct i; discriminate.
    + intros sid t Ht. cbn in Ht. now rewrite lookup_empty in Ht.
  - intros req st w Hgiven. now apply get_sse_registers_then_connects.
Qed.


Section EventLogFacts.
Import EventLog.

Lemma numbered_app (from : Z) (l1 l2 : list jsstring) :
  numbered from (l1 ++ l2) = numbered from l1 ++ numbered (from + Z.of_nat (length l1)) l2.
Proof.
  revert from. induction l1 as [| p l1 IH]; intros from; cbn [numbered app length].
  - now rewrite Z.add_0_r.
  - rewrite IH. do 3 f_equal. lia.
Qed.

Lemma last_numbered (from : Z) (l : list jsstring) :
  seq <$> last (numbered from l) =
    match l with [] => None | _ => Some (from + Z.of_nat (length l) - 1) end.
Proof.
  revert from. induction l as [| p l IH]; intros from; [reflexivity |].
  cbn [numbered]. destruct l as [| q l].
  - cbn. f_equal. lia.
  - change (last (?x :: numbered (from + 1) (q :: l)))
      with (last (numbered (from + 1) (q :: l))).
    rewrite IH. cbn [length]. f_equal. lia.
Qed.

Lemma next_seq_numbered (log : gmap jsstring (list Entry)) (sid : jsstring) (l : list jsstring) :
  entries log sid = numbered 1 l -> next_seq log sid = 1 + Z.of_nat (length l).
Proof.
  intros Hlog. unfold next_seq. rewrite Hlog.
  pose proof (last_numbered 1 l) as Hlast.
  destruct (last (numbered 1 l)) as [e |]; destruct l as [| p l]; cbn in Hlast;
    try discriminate; [| reflexivity].
  injection Hlast as ->. cbn [length]. lia.
Qed.

(** The log of a session holds its payloads numbered from 1. *)
Lemma entries_appends (ops : list (jsstring * jsstring)) (sid : jsstring) :
  entries (appends ops ∅) sid = numbered 1 (appended_to sid ops).
Proof.
  induction ops as [| [s p] ops IH] using rev_ind.
  - cbn. unfold entries. now rewrite lookup_empty.
  - unfold appends in *. rewrite foldl_snoc.
    set (log := foldl _ ∅ ops) in *. cbn [fst snd append].
    unfold appended_to in *. rewrite List.filter_app, fmap_app. cbn [List.filter fst].
    unfold jsstring_eqb. case_bool_decide as Heq.
    + subst s. unfold entries at 1. rewrite lookup_insert_eq. cbn [from_option id].
      rewrite (next_seq_numbered _ _ _ IH), IH, numbered_app.
      cbn [fmap list_fmap snd numbered]. reflexivity.
    + unfold entries at 1. rewrite lookup_insert_ne by exact Heq.
      cbn [fmap list_fmap]. rewrite app_nil_r. exact IH.
Qed.

Lemma filter_numbered_all (k : Z) (l : list jsstring) :
  forall from : Z, k < from ->
  List.filter (fun e => k <? seq e) (numbered from l) = numbered from l.
Proof.
  induction l as [| p l IH]; intros from Hfrom; [reflexivity |].
  cbn [numbered List.filter seq].
  replace (k <? from) with true by (symmetry; apply Z.ltb_lt; lia).
  f_equal. apply IH. lia.
Qed.

Lemma filter_numbered (k : Z) (l : list jsstring) :
  forall from : Z,
  from <= k + 1 -> k + 1 - from <= Z.of_nat (length l) ->
  List.filter (fun e => k <? seq e) (numbered from l) =
    numbered (k + 1) (drop (Z.to_nat (k + 1 - from)) l).
Proof.
  induction l as [| p l IH]; intros from Hfrom Hlen.
  - cbn in *. now rewrite drop_nil.
  - destruct (decide (from = k + 1)) as [-> | Hne].
    + rewrite Z.sub_diag. cbn [Z.to_nat drop]. apply filter_numbered_all. lia.
    + cbn [numbered List.filter seq].
      replace (k <? from) with false by (symmetry; apply Z.ltb_ge; lia).
      rewrite (IH (from + 1)) by (cbn [length] in Hlen; lia).
      replace (Z.to_nat (k + 1 - from)) with (S (Z.to_nat (k + 1 - (from + 1)))) by lia.
      reflexivity.
Qed.

Lemma seq_numbered (from : Z) (l : list jsstring) :
  seq <$> numbered from l = seqZ from (Z.of_nat (length l)).
Proof.
  revert from. induction l as [| p l IH]; intros from; [reflexivity |].
  cbn [numbered fmap list_fmap length]. rewrite seqZ_cons by lia.
  f_equal. change (seq <$> numbered (from + 1) l = seqZ (Z.succ from) (Z.pred (Z.of_nat (S (length l))))).
  rewrite IH. f_equal; lia.
Qed.

Lemma payload_numbered (from : Z) (l : list jsstring) : payload <$> numbered from l = l.
Proof.
  revert from. induction l as [| p l IH]; intros from; [reflexivity |].
  cbn [numbered fmap list_fmap payload]. f_equal. apply IH.
Qed.

(** C3. After any history of appends, in which [a1 .. an] are the payloads
    appended to one session, and for every marker [0 <= k <= n], replay
    after [k] returns the entries [a(k+1) .. an] and nothing else: their
    sequence numbers are [k+1, .., n] in this order. *)
Theorem replay_returns_the_entries_after_the_marker
    (ops : list (jsstring * jsstring)) (sid : jsstring) (k : Z) :
  let payloads := appended_to sid ops in
  let n := Z.of_nat (length payloads) in
  0 <= k <= n ->
  let replayed := replay sid k (appends ops ∅) in
  replayed = numbered (k + 1) (drop (Z.to_nat k) payloads) /\
  seq <$> replayed = seqZ (k + 1) (n - k) /\
  payload <$> replayed = drop (Z.to_nat k) payloads.
Proof.
  intros payloads n Hk replayed.
  assert (Hreplayed : replayed = numbered (k + 1) (drop (Z.to_nat k) payloads)).
  { subst replayed. unfold replay. rewrite entries_appends. fold payloads.
    rewrite (filter_numbered k payloads 1) by lia.
    do 2 f_equal. lia. }
  split; [exact Hreplayed |]. rewrite Hreplayed, seq_numbered, payload_numbered.
  split; [| reflexivity]. f_equal. rewrite length_drop. lia.
Qed.
End EventLogFacts.

Lemma replay_witness :
  let ops := [(js "s1", js "a1"); (js "s2", js "b1"); (js "s1", js "a2"); (js "s1", js "a3")] in
  let replayed := EventLog.replay (js "s1") 1 (EventLog.appends ops ∅) in
  replayed = EventLog.numbered (1 + 1) (drop (Z.to_nat 1) (EventLog.appended_to (js "s1") ops)) /\
  EventLog.seq <$> replayed = seqZ (1 + 1) (Z.of_nat (length (EventLog.appended_to (js "s1") ops)) - 1) /\
  EventLog.payload <$> replayed = drop (Z.to_nat 1) (EventLog.appended_to (js "s1") ops).
Proof.
  apply (replay_returns_the_entries_after_the_marker
           [(js "s1", js "a1"); (js "s2", js "b1"); (js "s1", js "a2"); (js "s1", js "a3")]
           (js "s1") 1).
  split; [lia | now vm_compute].
Defined.

(** ** The agent loop and the tool executor, run by run *)

Section LoopFacts.
Context {World : Type} `{Host World}.

Lemma answered_app (l1 l2 : list SamplingMessage) :
  answered l1 -> answered l2 -> answered (l1 ++ l2).
Proof.
  induction 1 as [| c results rest Hne Hres _ IH]; intros Hl2; [exact Hl2 |].
  cbn [app]. constructor; auto.
Qed.

Lemma zip_with_tool_result_answers (calls : list ToolUse) (texts : list jsstring) :
  length texts = length calls ->
  Forall2 (fun call block => exists t, block = ToolResultContent (tu_id call) [t])
          calls (zip_with tool_result calls texts).
Proof.
  revert texts. induction calls as [| call calls IH]; intros [| t texts] Hlen;
    try discriminate; cbn [zip_with]; constructor.
  - now exists t.
  - apply IH. now injection Hlen.
Qed.

Ltac nothing_ran :=
  exists [], [], []; rewrite !app_nil_r;
  split; [reflexivity |]; split; [reflexivity |]; split; [reflexivity |];
  split; [reflexivity |]; split; [reflexivity |];
  split; [intros i r Hi; discriminate |];
  split; [intros r Hr; discriminate |];
  split; [reflexivity |]; split; [constructor |];
  intros j r Hj; destruct j; discriminate.

(** Everything a returning run of the loop leaves behind, from any state. *)
Lemma agentLoop_returns (a : Args) (fuel : nat) :
  forall (it : Z) (st st' : LoopState) (m m' : Machine World),
  agentLoop a fuel it st m = (Returned st', m') ->
  exists (reqs : list CreateMessageRequest) (news : list IterationResult)
         (added : list SamplingMessage),
    sampling_requests (log m') = sampling_requests (log m) ++ reqs /\
    iterationResults st' = iterationResults st ++ news /\
    conversationHistory st' = conversationHistory st ++ added /\
    length news = length reqs /\
    iteration <$> news = seqZ (it + 1) (Z.of_nat (length news)) /\
    (forall (i : nat) r, news !! i = Some r -> (S i < length news)%nat ->
       ran_tools r = true /\ textResponse r = None) /\
    (forall r, last news = Some r -> ran_tools r = false ->
       exists t, textResponse r = Some t) /\
    length added = (2 * length (List.filter ran_tools news))%nat /\
    answered added /\
    (forall (j : nat) r, reqs !! j = Some r ->
       messages r = conversationHistory st ++ take (2 * j) added /\
       (2 * j <= length added)%nat).
Proof.
  induction fuel as [| fuel IH]; intros it st st' m m' Hrun.
  - cbn [agentLoop] in Hrun.
    destruct (number_lt (inject_Z it) (maxIterations a)); [discriminate |].
    injection Hrun as <- <-. nothing_ran.
  - cbn [agentLoop] in Hrun.
    destruct (number_lt (inject_Z it) (maxIterations a)).
    2:{ injection Hrun as <- <-. nothing_ran. }
    rewrite bind_run in Hrun.
    pose proof (loopBody_cases a it st m) as Hbody. cbn zeta in Hbody.
    set (request := build_request a it (conversationHistory st)) in *.
    destruct (sendRequest request (result_schema a it) (world m)) as [[e | result] w].
    { rewrite Hbody in Hrun. discriminate. }
    destruct (stop_is_toolUse result &&
              (0 <? length (extractToolCalls (result_content result)))%nat) eqn:Hcont.
    + destruct Hbody as (texts & w' & evs & Hstep & Hlen & Hevs).
      rewrite Hstep in Hrun.
      apply IH in Hrun as (reqs & news & added & Hlog & Hres & Hhist & Hcount & Hnum &
                           Hinner & Hlast & Hadded & Hans & Hmsgs).
      cbn [log iterationResults conversationHistory] in *.
      apply andb_true_iff in Hcont as [_ Hsome]. apply Nat.ltb_lt in Hsome.
      eexists (request :: reqs), (_ :: news), (_ :: _ :: added).
      split.
      { rewrite Hlog, !sampling_requests_app, Hevs, app_nil_r.
        now rewrite <- app_assoc. }
      split; [rewrite Hres, <- app_assoc; reflexivity |].
      split; [rewrite Hhist, <- app_assoc; reflexivity |].
      split; [cbn [length]; now rewrite Hcount |].
      split.
      { cbn [fmap list_fmap length iteration]. rewrite seqZ_cons by lia.
        f_equal. change (iteration <$> news = seqZ (Z.succ (it + 1)) (Z.pred (Z.of_nat (S (length news))))).
        rewrite Hnum. f_equal; lia. }
      split.
      { intros [| i] r Hi Hlt.
        - injection Hi as <-. split; reflexivity.
        - apply (Hinner i r Hi). cbn [length] in Hlt. lia. }
      split.
      { intros r Hr Hno. destruct news as [| r0 news0].
        - injection Hr as <-. discriminate.
        - apply (Hlast r); [exact Hr | exact Hno]. }
      split.
      { cbn [length List.filter ran_tools toolCalls]. rewrite Hadded. lia. }
      split.
      { constructor; [| | exact Hans].
        - intros Hnil. rewrite Hnil in Hsome. cbn in Hsome. lia.
        - now apply zip_with_tool_result_answers. }
      intros [| j] r Hj.
      * injection Hj as <-. cbn [build_request messages]. subst request.
        cbn [build_request messages take]. rewrite app_nil_r.
        split; [reflexivity | lia].
      * destruct (Hmsgs j r Hj) as [Hmsg Hle]. split.
        -- rewrite Hmsg, <- app_assoc. f_equal.
           replace (2 * S j)%nat with (S (S (2 * j))) by lia. reflexivity.
        -- cbn [length]. lia.
    + rewrite Hbody in Hrun. cbn [finish] in Hrun.
      injection Hrun as <- <-. cbn [log iterationResults conversationHistory iteration
                                    ir_stopReason toolCalls].
      eexists [request], [_], [].
      rewrite sampling_requests_app, !app_nil_r.
      split; [reflexivity |]. split; [reflexivity |]. split; [reflexivity |].
      split; [reflexivity |].
      split; [cbn; f_equal; lia |].
      split; [intros i r Hi Hlt; cbn in Hlt; lia |].
      split; [intros r Hr _; injection Hr as <-; eexists; reflexivity |].
      split; [reflexivity |]. split; [constructor |].
      intros [| j] r Hj; [| destruct j; discriminate].
      injection Hj as <-. subst request. cbn. rewrite app_nil_r. split; [reflexivity | lia].
Qed.

(** X1. A run of the agent loop that returns has recorded one iteration per
    sampling request, numbered 1, 2, ... in order; every iteration but the
    last ran tools and has no text, and a last iteration that ran no tool
    carries the text response. The handler returns the report of exactly
    these iterations. *)
Theorem report_has_one_iteration_per_request (a : Args) (w : World)
    (st : LoopState) (m' : Machine World) :
  includeTools a = true ->
  runAgentLoop a (start w) = (Returned st, m') ->
  let results := iterationResults st in
  handler a (start w) = (Returned {| text := report a results; isError := None |}, m') /\
  length results = length (sampling_requests (log m')) /\
  iteration <$> results = seqZ 1 (Z.of_nat (length results)) /\
  (forall (i : nat) r, results !! i = Some r -> (S i < length results)%nat ->
     ran_tools r = true /\ textResponse r = None) /\
  (forall r, last results = Some r -> ran_tools r = false ->
     exists t, textResponse r = Some t).
Proof.
  intros Hinc Hrun results. subst results.
  assert (Hhandler : handler a (start w) =
            (Returned {| text := report a (iterationResults st); isError := None |}, m')).
  { unfold handler. rewrite Hinc. cbn [negb]. now rewrite bind_run, Hrun. }
  unfold runAgentLoop in Hrun.
  apply agentLoop_returns in Hrun as (reqs & news & added & Hlog & Hres & _ & Hcount & Hnum &
                                      Hinner & Hlast & _).
  change (sampling_requests (log m') = reqs) in Hlog.
  change (iterationResults st = news) in Hres.
  rewrite Hlog. rewrite Hres in *.
  split; [exact Hhandler |]. split; [exact Hcount |]. split; [exact Hnum |].
  split; [exact Hinner | exact Hlast].
Qed.

(** X2. The conversation is append-only: in a run that returns, the request
    of round [j+1] carries exactly the first [1 + 2j] messages of the final
    conversation, and the first of them is the prompt. *)
Theorem requests_carry_a_growing_history (a : Args) (w : World)
    (st : LoopState) (m' : Machine World) (j : nat) (r : CreateMessageRequest) :
  runAgentLoop a (start w) = (Returned st, m') ->
  sampling_requests (log m') !! j = Some r ->
  messages r = take (1 + 2 * j) (conversationHistory st) /\
  length (messages r) = (1 + 2 * j)%nat /\
  head (messages r) = Some (seed a).
Proof.
  intros Hrun Hj. unfold runAgentLoop in Hrun.
  apply agentLoop_returns in Hrun as (reqs & news & added & Hlog & _ & Hhist & _ & _ &
                                      _ & _ & _ & _ & Hmsgs).
  change (sampling_requests (log m') = reqs) in Hlog.
  change (conversationHistory st = seed a :: added) in Hhist.
  rewrite Hlog in Hj.
  destruct (Hmsgs j r Hj) as [Hmsg Hle]. rewrite Hmsg, Hhist.
  cbn [conversationHistory app].
  split; [reflexivity |]. split; [| reflexivity].
  cbn [length]. rewrite length_take. lia.
Qed.


(** The only thing that throws in the loop is the client call. *)
Lemma agentLoop_throws (a : Args) (fuel : nat) :
  forall (it : Z) (st : LoopState) (m m' : Machine World) (e : Exn),
  agentLoop a fuel it st m = (Threw e, m') ->
  exists request schema w,
    sendRequest request schema w = (inl e, world m') /\
    last (sampling_requests (log m')) = Some request.
Proof.
  induction fuel as [| fuel IH]; intros it st m m' e Hrun; cbn [agentLoop] in Hrun.
  - destruct (number_lt (inject_Z it) (maxIterations a)); discriminate.
  - destruct (number_lt (inject_Z it) (maxIterations a)); [| discriminate].
    rewrite bind_run in Hrun.
    pose proof (loopBody_cases a it st m) as Hbody. cbn zeta in Hbody.
    set (request := build_request a it (conversationHistory st)) in *.
    destruct (sendRequest request (result_schema a it) (world m)) as [[e' | result] w] eqn:Hsend.
    + rewrite Hbody in Hrun. injection Hrun as <- <-.
      exists request, (result_schema a it), (world m). cbn [world log].
      split; [exact Hsend |]. rewrite sampling_requests_app. cbn. apply last_snoc.
    + destruct (stop_is_toolUse result &&
                (0 <? length (extractToolCalls (result_content result)))%nat).
      * destruct Hbody as (texts & w' & evs & Hstep & _). rewrite Hstep in Hrun.
        now apply IH in Hrun.
      * rewrite Hbody in Hrun. discriminate.
Qed.

(** X4. When the handler throws, the error is one the client call threw for
    the last request sent: neither the loop nor the tools throw by
    themselves, and nothing is sent after a failed request. *)
Theorem handler_throws_only_what_the_client_threw (a : Args) (m m' : Machine World)
    (e : Exn) :
  handler a m = (Threw e, m') ->
  exists request schema w,
    sendRequest request schema w = (inl e, world m') /\
    last (sampling_requests (log m')) = Some request.
Proof.
  unfold handler. destruct (includeTools a); cbn [negb]; rewrite bind_run.
  - unfold runAgentLoop.
    destruct (agentLoop a (loop_fuel a) 0 _ m) as [[st | e' |] m1] eqn:Hrun;
      [discriminate | | discriminate].
    intros Heq. injection Heq as <- <-. now apply agentLoop_throws in Hrun.
  - rewrite send_run.
    match goal with
    | |- context [sendRequest ?req ?schema (world m)] =>
        destruct (sendRequest req schema (world m)) as [[e' | r] w] eqn:Hsend;
        [| discriminate];
        intros Heq; injection Heq as <- <-;
        exists req, schema, (world m)
    end.
    cbn [world log]. split; [exact Hsend |].
    rewrite sampling_requests_app. cbn. apply last_snoc.
Qed.

(** X5. A result that does not stop for tool use, or stops for tool use
    without a [tool_use] block, ends the run: the conversation is left as
    it is, the iteration is recorded with the extracted text, and no tool
    is executed, even when the content holds [tool_use] blocks. *)
Theorem other_results_end_the_run (a : Args) (it : Z) (st : LoopState)
    (m : Machine World) (result : CreateMessageResult) (w : World) :
  sendRequest (build_request a it (conversationHistory st)) (result_schema a it) (world m)
    = (inr result, w) ->
  stopReason result <> Some (js "toolUse") \/ extractToolCalls (result_content result) = [] ->
  loopBody a it st m =
    (Returned (Break
       {| conversationHistory := conversationHistory st;
          iterationResults := iterationResults st ++
            [{| iteration := it + 1; ir_stopReason := stopReason result;
                toolCalls := None;
                textResponse := Some (extractText (result_content result)) |}] |}),
     {| world := w;
        log := log m ++ [EvSampling (build_request a it (conversationHistory st))
                           (result_schema a it)] |}).
Proof.
  intros Hsend Hend.
  pose proof (loopBody_cases a it st m) as Hbody. cbn zeta in Hbody.
  rewrite Hsend in Hbody.
  replace (stop_is_toolUse result &&
           (0 <? length (extractToolCalls (result_content result)))%nat) with false in Hbody.
  { exact Hbody. }
  symmetry. apply andb_false_iff. destruct Hend as [Hstop | Hnone].
  - left. unfold stop_is_toolUse, jsstring_eqb.
    destruct (stopReason result) as [s |]; [| reflexivity].
    apply bool_decide_eq_false_2. intros ->. now apply Hstop.
  - right. now rewrite Hnone.
Qed.

(** X6. Without [includeTools] the handler sends exactly one request,
    whatever [maxIterations] and [toolChoice] are: the prompt alone, no tool
    catalog and no tool choice; the answer is returned as text and is not an
    error result. *)
Theorem basic_sampling_sends_one_request (a : Args) (w w' : World)
    (result : CreateMessageResult) :
  includeTools a = false ->
  let request :=
    {| messages := [seed a];
       systemPrompt := or_else (args_systemPrompt a) (js "You are a helpful assistant.");
       maxTokens := args_maxTokens a; tools := None; toolChoice := None |} in
  sendRequest request CreateMessageResultSchema w = (inr result, w') ->
  handler a (start w) =
    (Returned {| text := js "Sampling Result (no tools):" ++ nl ++ JSON_stringify_result result;
                 isError := None |},
     {| world := w'; log := [EvSampling request CreateMessageResultSchema] |}).
Proof.
  intros Hinc request Hsend. unfold handler. rewrite Hinc. cbn [negb].
  rewrite bind_run, send_run. fold request. cbn [start world log].
  now rewrite Hsend.
Qed.

(** X7. The tool executor answers every call: for every tool name and every
    input it returns a text, never throws, and sends nothing to the client,
    whatever the runtime does (a failing evaluation or time zone lookup is
    caught). *)
Theorem executor_always_returns_a_text (name : jsstring) (input : JSObject)
    (m : Machine World) :
  exists text m',
    executeMockTool name input m = (Returned text, m') /\
    sampling_requests (log m') = sampling_requests (log m).
Proof.
  destruct (executeMockTool_returns name input m) as (text & w & evs & Hrun & Hevs).
  exists text, {| world := w; log := log m ++ evs |}. split; [exact Hrun |].
  cbn [log]. rewrite sampling_requests_app.
  destruct Hevs as [-> | (expr & _ & ->)]; cbn; now rewrite app_nil_r.
Qed.

(** X8. [calculate] on an input without an [expression] property, or whose
    [expression] is [null], a boolean or an object, evaluates nothing and
    answers with an error text: the could-not-evaluate text when the
    expression is an object that has a [toString] property, whose
    conversion to text throws, and the invalid-expression text otherwise. *)
Theorem calculate_without_expression (input : JSObject) (m : Machine World) :
  match get_prop input (js "expression") with
  | None | Some JNull | Some (JBool _) | Some (JObj _) => True
  | _ => False
  end ->
  executeMockTool (js "calculate") input m =
    (Returned
       match get_prop input (js "expression") with
       | Some (JObj fields) =>
           match get_prop fields (js "toString") with
           | Some _ => js "Error: Could not evaluate expression"
           | None => js "Error: Invalid expression. Only basic math operations allowed."
           end
       | _ => js "Error: Invalid expression. Only basic math operations allowed."
       end, m).
Proof.
  intros Hexpr. unfold executeMockTool.
  replace (jsstring_eqb (js "calculate") (js "get_weather")) with false by reflexivity.
  replace (jsstring_eqb (js "calculate") (js "calculate")) with true by reflexivity.
  rewrite try_completion.
  destruct (get_prop input (js "expression")) as [[| [|] | q | s | items | fields] |];
    try contradiction; cbn [String_ ToString]; try (destruct m; reflexivity).
  destruct (get_prop fields (js "toString")); destruct m; reflexivity.
Qed.

Lemma floor_of_fraction (r : Q) (n : Z) :
  (0 <= r)%Q -> (r < 1)%Q -> 0 < n -> 0 <= Qfloor (r * inject_Z n) < n.
Proof.
  intros Hlo Hhi Hn. split.
  - rewrite <- (Qfloor_Z 0). apply Qfloor_resp_le.
    apply Qmult_le_0_compat; [exact Hlo |].
    change (inject_Z 0 <= inject_Z n)%Q. rewrite <- Zle_Qle. lia.
  - rewrite Zlt_Qlt. eapply Qle_lt_trans; [apply Qfloor_le |].
    rewrite <- (Qmult_1_l (inject_Z n)) at 2.
    apply Qmult_lt_compat_r; [| exact Hhi].
    change (inject_Z 0 < inject_Z n)%Q. rewrite <- Zlt_Qlt. exact Hn.
Qed.

(** X9. When [Math.random] yields numbers in [0, 1), the weather report is
    the serialized object with the city as given (left out when the input
    has none), a temperature between 5 and 34, one of the four conditions
    and a humidity between 40 and 99. *)
Theorem weather_report_is_in_range (input : JSObject) (m : Machine World) :
  (forall w, (0 <= (Math_random w).1)%Q /\ ((Math_random w).1 < 1)%Q) ->
  exists (t h : Z) (c : jsstring) (m' : Machine World),
    executeMockTool (js "get_weather") input m =
      (Returned (JSON_stringify (JObj
         (match get_prop input (js "city") with
          | Some city => [(js "city", city)]
          | None => []
          end ++
          [ (js "temperature", JNum (inject_Z t));
            (js "conditions", JStr c);
            (js "humidity", JNum (inject_Z h)) ]))), m') /\
    5 <= t <= 34 /\ In c conditions /\ 40 <= h <= 99 /\ log m' = log m.
Proof.
  intros Hrandom. unfold executeMockTool.
  replace (jsstring_eqb (js "get_weather") (js "get_weather")) with true by reflexivity.
  unfold random_below. rewrite !bind_run. unfold host_pure at 1. cbn [world log].
  pose proof (Hrandom (world m)) as [Hlo1 Hhi1].
  destruct (Math_random (world m)) as [r1 w1]. cbn [fst] in *.
  unfold ret at 1. rewrite !bind_run. unfold host_pure at 1. cbn [world log].
  pose proof (Hrandom w1) as [Hlo2 Hhi2].
  destruct (Math_random w1) as [r2 w2]. cbn [fst] in *.
  unfold ret at 1. rewrite !bind_run. unfold host_pure at 1. cbn [world log].
  pose proof (Hrandom w2) as [Hlo3 Hhi3].
  destruct (Math_random w2) as [r3 w3]. cbn [fst] in *.
  unfold ret.
  pose proof (floor_of_fraction r1 30 Hlo1 Hhi1 ltac:(lia)) as Ht.
  pose proof (floor_of_fraction r2 (Z.of_nat (length conditions)) Hlo2 Hhi2 ltac:(cbn; lia)) as Hc.
  pose proof (floor_of_fraction r3 60 Hlo3 Hhi3 ltac:(lia)) as Hh.
  set (c := Qfloor (r2 * inject_Z (Z.of_nat (length conditions)))) in *.
  assert (Hcond : exists cond, index conditions c = Some cond /\ In cond conditions).
  { unfold index. replace (c <? 0) with false by (symmetry; apply Z.ltb_ge; lia).
    cbn [length conditions] in Hc.
    destruct (conditions !! Z.to_nat c) as [cond |] eqn:Hlookup.
    - exists cond. split; [reflexivity |].
      apply list_elem_of_In, list_elem_of_lookup. eauto.
    - apply lookup_ge_None in Hlookup. cbn [length conditions] in Hlookup. lia. }
  destruct Hcond as (cond & Hindex & Hin).
  eexists (Qfloor (r1 * inject_Z 30) + 5), (Qfloor (r3 * inject_Z 60) + 40), cond, _.
  split.
  { rewrite Hindex. unfold object_literal. cbn [omap list_omap fmap option_fmap option_map].
    destruct (get_prop input (js "city")); reflexivity. }
  cbn [log]. repeat split; try lia. exact Hin.
Qed.
End LoopFacts.

(** ** The life of a resumable session *)

Section StreamableLifecycle.
Import StreamableHttp.
Context {World : Type} `{Sdk World}.

Lemma given_has_known (st : State) (sid : jsstring) (t : Transport) :
  sid <> [] -> transports st !! sid = Some t ->
  given (Some sid) = true /\ has st (Some sid) = true /\ get st (Some sid) = Some t.
Proof.
  intros Hne Ht. split; [| split].
  - destruct sid; [now destruct Hne | reflexivity].
  - cbn. apply bool_decide_eq_true_2. rewrite Ht. eauto.
  - exact Ht.
Qed.

(** A request with the id of a session is handed to the session's transport. *)
Lemma route_known (method : Method) (req : Request) (st : State) (w : World)
    (sid : jsstring) (t : Transport) :
  mcp_session_id req = Some sid -> sid <> [] -> transports st !! sid = Some t ->
  route method req st w =
    let '(h, st', w') := run_transport t req st w in
    (match method with
     | POST => guarded "Internal server error" req h
     | GET => {| response := Sent <$> reply h; rejected := threw h |}
     | DELETE => guarded "Error handling session termination" req h
     end, st', w').
Proof.
  intros Hsid Hne Ht.
  destruct (given_has_known st sid t Hne Ht) as (Hgiven & Hhas & Hget).
  destruct method; cbn [route]; unfold post_mcp, get_mcp, delete_mcp;
    rewrite Hsid, Hgiven, Hhas, Hget; cbn [andb negb orb];
    destruct (run_transport t req st w) as [[h st'] w']; reflexivity.
Qed.

Lemma run_transport_trace (t : Transport) (req : Request) (st : State) (w : World) :
  exists evs, trace (run_transport t req st w).1.2 = trace st ++ EvHandleRequest (handle t) :: evs.
Proof.
  unfold run_transport. destruct (handleRequest t req w) as [h w'].
  assert (Hclose : forall t' st', exists evs, trace (onclose t' st') = trace st' ++ evs).
  { intros t' st'. unfold onclose.
    destruct (sessionId t') as [sid |]; [| exists []; now rewrite app_nil_r].
    destruct (truthy sid && has st' (Some sid)); [| exists []; now rewrite app_nil_r].
    cbn [emit trace]. eexists. now rewrite <- app_assoc. }
  destruct (initialized h) as [sid |]; destruct (closed h); cbn [fst snd].
  - destruct (Hclose {| handle := handle t; sessionId := Some sid |}
                (onsessioninitialized sid {| handle := handle t; sessionId := Some sid |}
                   (emit (EvHandleRequest (handle t)) st))) as [evs ->].
    cbn [onsessioninitialized emit trace]. eexists. rewrite <- !app_assoc. reflexivity.
  - cbn [onsessioninitialized emit trace]. eexists. rewrite <- !app_assoc. reflexivity.
  - destruct (Hclose t (emit (EvHandleRequest (handle t)) st)) as [evs ->].
    cbn [emit trace]. eexists. rewrite <- !app_assoc. reflexivity.
  - cbn [emit trace]. exists []. reflexivity.
Qed.

(** X10. A POST, GET or DELETE that carries the id of a registered session
    is handed to that session's transport and to no other, and is never
    answered with the 400 of an unknown session. *)
Theorem known_session_reaches_its_transport (method : Method) (req : Request)
    (st : State) (w : World) (sid : jsstring) (t : Transport) :
  mcp_session_id req = Some sid -> sid <> [] -> transports st !! sid = Some t ->
  let served := route method req st w in
  served.1.2 = (run_transport t req st w).1.2 /\
  served.2 = (run_transport t req st w).2 /\
  (exists evs, trace served.1.2 = trace st ++ EvHandleRequest (handle t) :: evs) /\
  response served.1.1 <> Some (bad_request req).
Proof.
  intros Hsid Hne Ht served. subst served.
  rewrite (route_known method req st w sid t Hsid Hne Ht).
  pose proof (run_transport_trace t req st w) as Htrace.
  destruct (run_transport t req st w) as [[h st'] w']. cbn [fst snd] in *.
  split; [reflexivity |]. split; [reflexivity |]. split; [exact Htrace |].
  destruct method; cbn [response]; unfold guarded.
  - destruct (threw h), (reply h); cbn; discriminate.
  - destruct (reply h); cbn; discriminate.
  - destruct (threw h), (reply h); cbn; discriminate.
Qed.

(** X11. A POST without a session id whose transport connects and is
    initialized by the SDK under [sid] registers exactly that: the new
    transport, with a handle no other transport has had, is stored under
    [sid], and the answer is the transport's. *)
Theorem initialize_registers_the_session (req : Request) (st : State) (w w1 w2 : World)
    (h : Handled) (sid : jsstring) :
  given (mcp_session_id req) = false ->
  connect {| handle := next_handle st; sessionId := None |} w = (None, w1) ->
  handleRequest {| handle := next_handle st; sessionId := None |} req w1 = (h, w2) ->
  initialized h = Some sid ->
  closed h = false ->
  let served := post_mcp req st w in
  transports served.1.2 =
    <[sid := {| handle := next_handle st; sessionId := Some sid |}]> (transports st) /\
  next_handle served.1.2 = S (next_handle st) /\
  trace served.1.2 =
    trace st ++ [EvCreateServer; EvNewTransport (next_handle st); EvConnected (next_handle st);
                 EvHandleRequest (next_handle st); EvRegistered sid (next_handle st)] /\
  served.1.1 = guarded "Internal server error" req h /\
  served.2 = w2.
Proof.
  intros Hgiven Hconn Hhandle Hinit Hclosed served. subst served.
  unfold post_mcp. rewrite Hgiven. cbn [andb negb emit next_handle transports trace handle].
  rewrite Hconn. unfold run_transport. cbn [emit next_handle transports trace handle].
  rewrite Hhandle, Hinit, Hclosed.
  cbn [fst snd onsessioninitialized emit transports next_handle trace handle].
  rewrite <- !app_assoc. cbn [app]. auto.
Qed.

(** X12. When the connect of a new transport fails, the POST is answered
    with the 500 JSON-RPC error "Internal server error" and no session is
    registered; the request is never handed to the transport. *)
Theorem failed_connect_registers_nothing (req : Request) (st : State) (w w1 : World)
    (e : Exn) :
  given (mcp_session_id req) = false ->
  connect {| handle := next_handle st; sessionId := None |} w = (Some e, w1) ->
  let served := post_mcp req st w in
  served.1.1 =
    {| response :=
         Some (Json 500 {| jsonrpc := js "2.0"; code := -32603;
                           message := js "Internal server error"; id := body_id req |});
       rejected := None |} /\
  transports served.1.2 = transports st /\
  trace served.1.2 = trace st ++ [EvCreateServer; EvNewTransport (next_handle st)] /\
  served.2 = w1.
Proof.
  intros Hgiven Hconn served. subst served.
  unfold post_mcp. rewrite Hgiven. cbn [andb negb emit next_handle transports trace handle].
  rewrite Hconn. cbn [fst snd emit transports trace].
  rewrite <- !app_assoc. cbn [app]. auto.
Qed.

(** X13. Termination is final: when the transport of a session closes
    while it handles a DELETE, the session leaves the map and its cleanup
    runs, and every later POST, GET or DELETE with that id is answered
    with the 400 error and changes nothing. *)
Theorem delete_ends_the_session (req : Request) (st : State) (w w1 : World)
    (sid : jsstring) (t : Transport) (h : Handled) :
  mcp_session_id req = Some sid -> sid <> [] ->
  transports st !! sid = Some t -> sessionId t = Some sid ->
  handleRequest t req w = (h, w1) -> initialized h = None -> closed h = true ->
  let served := delete_mcp req st w in
  transports served.1.2 = delete sid (transports st) /\
  trace served.1.2 =
    trace st ++ [EvHandleRequest (handle t); EvRemoved sid; EvCleanup sid] /\
  (forall (method : Method) (again : Request) (w2 : World),
     mcp_session_id again = Some sid ->
     route method again served.1.2 w2 =
       ({| response := Some (bad_request again); rejected := None |}, served.1.2, w2)).
Proof.
  intros Hsid Hne Ht Hkey Hhandle Hinit Hclosed served.
  destruct (given_has_known st sid t Hne Ht) as (Hgiven & Hhas & Hget).
  assert (Hserved : served.1.2 =
            {| transports := delete sid (transports st);
               next_handle := next_handle st;
               trace := trace st ++ [EvHandleRequest (handle t); EvRemoved sid; EvCleanup sid] |}).
  { subst served. change (delete_mcp req st w) with (route DELETE req st w).
    rewrite (route_known DELETE req st w sid t Hsid Hne Ht).
    unfold run_transport. rewrite Hhandle, Hinit, Hclosed.
    unfold onclose. rewrite Hkey.
    replace (truthy sid) with true by (destruct sid; [now destruct Hne | reflexivity]).
    replace (has (emit (EvHandleRequest (handle t)) st) (Some sid)) with true
      by (symmetry; exact Hhas).
    cbn [andb fst snd]. unfold emit. cbn [transports next_handle trace].
    rewrite <- !app_assoc. reflexivity. }
  rewrite Hserved. cbn [transports trace].
  split; [reflexivity |]. split; [reflexivity |].
  intros method again w2 Hagain.
  match goal with
  | |- route _ _ ?st' _ = _ =>
      assert (Hgone : has st' (mcp_session_id again) = false)
  end.
  { rewrite Hagain. cbn. apply bool_decide_eq_false_2.
    rewrite lookup_delete_eq. now intros [x Hx]. }
  assert (Hgiven' : given (mcp_session_id again) = true) by now rewrite Hagain.
  destruct method; cbn [route]; unfold post_mcp, get_mcp, delete_mcp;
    rewrite Hgiven', Hgone; reflexivity.
Qed.

(** X14. Serving one session leaves the others alone: a request handed to
    the transport of session [sid], during which no session is
    initialized, leaves every other entry of the map as it was, whether or
    not the transport closes. *)
Theorem other_sessions_are_untouched (method : Method) (req : Request) (st : State)
    (w w1 : World) (sid other : jsstring) (t : Transport) (h : Handled) :
  mcp_session_id req = Some sid -> sid <> [] ->
  transports st !! sid = Some t -> sessionId t = Some sid ->
  handleRequest t req w = (h, w1) -> initialized h = None ->
  other <> sid ->
  transports (route method req st w).1.2 !! other = transports st !! other.
Proof.
  intros Hsid Hne Ht Hkey Hhandle Hinit Hother.
  rewrite (route_known method req st w sid t Hsid Hne Ht).
  unfold run_transport. rewrite Hhandle, Hinit.
  destruct (closed h); cbn [fst snd].
  - unfold onclose. rewrite Hkey.
    destruct (truthy sid && has _ (Some sid)); cbn [emit transports]; [| reflexivity].
    now rewrite lookup_delete_ne.
  - reflexivity.
Qed.

(** X15. POST and DELETE never end in a rejected promise: whatever the
    header, the map and the SDK do, a failure is answered or swallowed. A
    GET is rejected only with the error its transport threw. *)
Theorem post_and_delete_never_reject (req : Request) (st : State) (w : World) :
  rejected (post_mcp req st w).1.1 = None /\
  rejected (delete_mcp req st w).1.1 = None /\
  (forall e, rejected (get_mcp req st w).1.1 = Some e ->
     exists t, get st (mcp_session_id req) = Some t /\
               threw (handleRequest t req w).1 = Some e).
Proof.
  split; [| split].
  - unfold post_mcp.
    destruct (given (mcp_session_id req) && has st (mcp_session_id req)).
    { destruct (get st (mcp_session_id req)) as [t |]; [| reflexivity].
      destruct (run_transport t req st w) as [[h st'] w'].
      unfold guarded. destruct (threw h), (reply h); reflexivity. }
    destruct (negb (given (mcp_session_id req))); [| reflexivity].
    destruct (connect _ w) as [[e |] w1]; [reflexivity |].
    match goal with
    | |- context [run_transport ?t req ?st1 w1] =>
        destruct (run_transport t req st1 w1) as [[h st'] w']
    end.
    unfold guarded. destruct (threw h), (reply h); reflexivity.
  - unfold delete_mcp.
    destruct (negb (given (mcp_session_id req)) || negb (has st (mcp_session_id req)));
      [reflexivity |].
    destruct (get st (mcp_session_id req)) as [t |]; [| reflexivity].
    destruct (run_transport t req st w) as [[h st'] w'].
    unfold guarded. destruct (threw h), (reply h); reflexivity.
  - intros e. unfold get_mcp.
    destruct (negb (given (mcp_session_id req)) || negb (has st (mcp_session_id req))) eqn:Hguard;
      [discriminate |].
    destruct (get st (mcp_session_id req)) as [t |] eqn:Hget.
    + unfold run_transport. destruct (handleRequest t req w) as [h w1] eqn:Hh.
      destruct (initialized h), (closed h); cbn [fst snd rejected]; intros Hthrew;
        exists t; (split; [reflexivity | now rewrite Hh]).
    + apply orb_false_iff in Hguard as [_ Hhas]. apply negb_false_iff in Hhas.
      destruct (mcp_session_id req) as [sid |]; [| discriminate].
      cbn in Hhas, Hget. apply bool_decide_eq_true_1 in Hhas as [x Hx]. congruence.
Qed.

(** X16. Opening and then terminating a session is a round trip on the
    map: after an initializing POST that registers a fresh id and a DELETE
    during which that transport closes, the map is what it was before. *)
Theorem open_then_delete_restores_the_map (init bye : Request) (st : State)
    (w w1 w2 w3 w4 : World) (h1 h2 : Handled) (sid : jsstring) :
  let t0 := {| handle := next_handle st; sessionId := None |} in
  let t := {| handle := next_handle st; sessionId := Some sid |} in
  given (mcp_session_id init) = false ->
  connect t0 w = (None, w1) ->
  handleRequest t0 init w1 = (h1, w2) ->
  initialized h1 = Some sid -> closed h1 = false ->
  sid <> [] -> transports st !! sid = None ->
  mcp_session_id bye = Some sid ->
  handleRequest t bye w3 = (h2, w4) -> initialized h2 = None -> closed h2 = true ->
  transports (delete_mcp bye (post_mcp init st w).1.2 w3).1.2 = transports st.
Proof.
  intros t0 t Hgiven Hconn Hh1 Hinit1 Hclosed1 Hne Hfresh Hbye Hh2 Hinit2 Hclosed2.
  assert (Hopen : transports (post_mcp init st w).1.2 = <[sid := t]> (transports st)).
  { unfold post_mcp. rewrite Hgiven.
    cbn [andb negb emit next_handle transports trace handle].
    fold t0. rewrite Hconn. unfold run_transport.
    cbn [emit next_handle transports trace handle]. rewrite Hh1, Hinit1, Hclosed1.
    reflexivity. }
  set (st1 := (post_mcp init st w).1.2) in *.
  assert (Ht : transports st1 !! sid = Some t) by (rewrite Hopen; apply lookup_insert_eq).
  destruct (given_has_known st1 sid t Hne Ht) as (_ & Hhas & _).
  change (delete_mcp bye st1 w3) with (route DELETE bye st1 w3).
  rewrite (route_known DELETE bye st1 w3 sid t Hbye Hne Ht).
  unfold run_transport. rewrite Hh2, Hinit2, Hclosed2.
  unfold onclose. cbn [sessionId t].
  replace (truthy sid) with true by (destruct sid; [now destruct Hne | reflexivity]).
  replace (has (emit (EvHandleRequest (handle t)) st1) (Some sid)) with true
    by (symmetry; exact Hhas).
  cbn [andb fst snd emit transports]. rewrite Hopen.
  rewrite delete_insert_eq. now apply delete_id.
Qed.
End StreamableLifecycle.

(** ** The push-only session and the error handlers *)

Section SseLifecycle.
Import Sse.
Context {World : Type} `{Sdk World}.

(** X17. The life of a push-only session: after a first connect that
    succeeds under a fresh id, a message posted with that id is delivered
    to the session's transport; when the connection closes the session
    leaves the map, which is then what it was before the connect, and the
    same message is answered with the 400 [invalid_session] error. *)
Theorem sse_session_lives_until_close (req msg : Request) (st : State)
    (w w1 w2 w3 : World) (sid : jsstring) :
  let t := {| handle := next_handle st; sessionId := sid |} in
  given (query_sessionId req) = false ->
  new_SSEServerTransport w = (sid, w1) ->
  connect t w1 = (None, w2) ->
  transports st !! sid = None ->
  query_sessionId msg = Some (QStr sid) ->
  let opened := (get_sse req st w).1.2 in
  (get_sse req st w).1.1 = {| response := Some (Stream sid); rejected := None |} /\
  post_message msg opened w3 =
    (match handlePostMessage t msg w3 with
     | (inr r, w4) => ({| response := Some (Sent r); rejected := None |}, opened, w4)
     | (inl e, w4) => ({| response := None; rejected := Some e |}, opened, w4)
     end) /\
  transports (onclose t opened) = transports st /\
  post_message msg (onclose t opened) w3 =
    ({| response := Some (InvalidSession 400 (js "invalid_session")
                            (js "No valid session found for the provided session ID"));
        rejected := None |}, onclose t opened, w3).
Proof.
  intros t Hgiven Hnew Hconn Hfresh Hmsg opened.
  assert (Hopened : (get_sse req st w).1 =
            ({| response := Some (Stream sid); rejected := None |},
             {| transports := <[sid := t]> (transports st);
                next_handle := S (next_handle st);
                trace := trace st ++ [EvCreateServer; EvNewTransport (next_handle st);
                                      EvRegistered sid (next_handle st);
                                      EvConnected (next_handle st)] |})).
  { unfold get_sse. rewrite Hgiven. cbn [emit next_handle transports trace].
    rewrite Hnew. cbn [emit next_handle transports trace handle]. fold t.
    rewrite Hconn. cbn [fst]. unfold emit. cbn [transports next_handle trace].
    rewrite <- !app_assoc. reflexivity. }
  subst opened. rewrite Hopened. cbn [fst snd].
  split; [reflexivity |]. split.
  { unfold post_message, get. rewrite Hmsg. cbn [transports].
    rewrite lookup_insert_eq.
    destruct (handlePostMessage t msg w3) as [[e | r] w4]; reflexivity. }
  assert (Hclosed : transports (onclose t
            {| transports := <[sid := t]> (transports st);
               next_handle := S (next_handle st);
               trace := trace st ++ [EvCreateServer; EvNewTransport (next_handle st);
                                     EvRegistered sid (next_handle st);
                                     EvConnected (next_handle st)] |}) = transports st).
  { unfold onclose. cbn [emit transports sessionId t].
    rewrite delete_insert_eq. now apply delete_id. }
  split; [exact Hclosed |].
  unfold post_message, get. rewrite Hmsg, Hclosed, Hfresh. reflexivity.
Qed.
End SseLifecycle.

Section ErrorFacts.

Lemma starts_with_app (p s : jsstring) : starts_with p (p ++ s) = true.
Proof.
  induction p as [| c p IH]; [now destruct s |].
  cbn [app starts_with]. now rewrite N.eqb_refl, IH.
Qed.

Lemma starts_with_extend (p s t : jsstring) :
  starts_with p s = true -> starts_with p (s ++ t) = true.
Proof.
  revert s. induction p as [| c p IH]; intros s Hs; [reflexivity |].
  destruct s as [| d s]; [discriminate |]. cbn [app starts_with] in *.
  apply andb_true_iff in Hs as [-> Hs]. now rewrite IH.
Qed.

Lemma starts_with_refl (p : jsstring) : starts_with p p = true.
Proof. rewrite <- (app_nil_r p) at 2. apply starts_with_app. Qed.

Lemma challenge_prefix (cfg : OAuthConfig) (e d : option jsstring) :
  starts_with (Auth.resource_metadata_challenge (mcpServerUrl cfg))
    (buildWwwAuthenticateHeader cfg e d) = true.
Proof.
  unfold buildWwwAuthenticateHeader, Auth.resource_metadata_challenge. cbv zeta.
  destruct e as [e |], d as [d |];
    try destruct (truthy e); try destruct (truthy d);
    first [ apply starts_with_refl
          | apply starts_with_extend; apply starts_with_refl
          | do 2 apply starts_with_extend; apply starts_with_refl ].
Qed.

(** X18. The error handlers answer every error once and only once: with
    the headers out they leave it to the next handler; otherwise the answer
    is a 401 or a 500, it is a 401 exactly when it carries a
    [WWW-Authenticate] header, and that header starts with the address of
    the protected-resource metadata. *)
Theorem error_handlers_answer_401_or_500 (cfg : OAuthConfig) (err : Exn) :
  handleAuthError cfg true err = None /\
  exists r,
    handleAuthError cfg false err = Some r /\
    (er_status r = 401 \/ er_status r = 500) /\
    (er_status r = 401 <-> is_Some (er_www_authenticate r)) /\
    (forall header, er_www_authenticate r = Some header ->
       starts_with (Auth.resource_metadata_challenge (mcpServerUrl cfg)) header = true).
Proof.
  split; [reflexivity |]. unfold handleAuthError, handleGeneralError.
  destruct (code_is err "ERR_JWT_EXPIRED" || includes (exn_message err) (js "expired")).
  { eexists. split; [reflexivity |]. cbn [er_status er_www_authenticate].
    split; [now left |]. split; [split; eauto |].
    intros header Hh. injection Hh as <-.
    exact (challenge_prefix cfg (Some (js "invalid_token")) (Some (js "Token expired"))). }
  destruct (jsstring_eqb (exn_name err) (js "UnauthorizedError") ||
            code_is err "ERR_JWT_INVALID" || code_is err "ERR_JWS_INVALID").
  { eexists. split; [reflexivity |]. cbn [er_status er_www_authenticate].
    split; [now left |]. split; [split; eauto |].
    intros header Hh. injection Hh as <-.
    exact (challenge_prefix cfg (Some (js "invalid_token")) None). }
  destruct (code_is err "credentials_required").
  { eexists. split; [reflexivity |]. cbn [er_status er_www_authenticate].
    split; [now left |]. split; [split; eauto |].
    intros header Hh. injection Hh as <-.
    exact (challenge_prefix cfg None None). }
  eexists. split; [reflexivity |]. cbn [er_status er_www_authenticate].
  split; [now right |]. split.
  - split; [discriminate | intros [x Hx]; discriminate].
  - intros header Hh. discriminate.
Qed.

End ErrorFacts.

(** ** Configuration, scopes and the protected stack *)

Section SplitFacts.
Import Auth.

Lemma split_cons_sep (sep : N) (s : jsstring) : split sep (sep :: s) = [] :: split sep s.
Proof. cbn [split]. now rewrite N.eqb_refl. Qed.

Lemma split_is_cons (sep : N) (s : jsstring) : exists p ps, split sep s = p :: ps.
Proof.
  induction s as [| c s (p & ps & IH)]; [now exists [], [] |].
  cbn [split]. destruct (c =? sep)%N; [now eexists _, _ |].
  rewrite IH. now eexists _, _.
Qed.

Lemma split_cons_other (sep c : N) (s p : jsstring) (ps : list jsstring) :
  c <> sep -> split sep s = p :: ps -> split sep (c :: s) = (c :: p) :: ps.
Proof.
  intros Hc Hs. cbn [split]. rewrite (proj2 (N.eqb_neq c sep) Hc). now rewrite Hs.
Qed.

(** The first piece is the text up to the first separator. *)
Lemma split_prefix (sep : N) (p r : jsstring) :
  ~ In sep p -> split sep (p ++ sep :: r) = p :: split sep r.
Proof.
  induction p as [| c p IH]; intros Hp; [apply split_cons_sep |].
  cbn [app]. apply split_cons_other.
  - intros ->. apply Hp. now left.
  - apply IH. intros Hin. apply Hp. now right.
Qed.

Lemma split_whole (sep : N) (p : jsstring) : ~ In sep p -> split sep p = [p].
Proof.
  induction p as [| c p IH]; intros Hp; [reflexivity |].
  apply split_cons_other.
  - intros ->. apply Hp. now left.
  - apply IH. intros Hin. apply Hp. now right.
Qed.

(** The pieces after the first are the pieces of the text after the first
    separator. *)
Lemma split_head_tail (sep : N) (s : jsstring) :
  exists p, ~ In sep p /\
    ((s = p /\ split sep s = [p]) \/
     (exists r, s = p ++ sep :: r /\ split sep s = p :: split sep r)).
Proof.
  induction s as [| c s (p & Hp & IH)].
  - exists []. split; [intros [] |]. now left.
  - destruct (N.eq_dec c sep) as [-> | Hc].
    + exists []. split; [intros [] |]. right. exists s. split; [reflexivity |].
      apply split_cons_sep.
    + exists (c :: p). split.
      { intros [-> | Hin]; [now apply Hc | now apply Hp]. }
      destruct IH as [[-> Hs] | (r & -> & Hs)].
      * left. split; [reflexivity |]. now apply (split_cons_other sep c p p []).
      * right. exists r. split; [reflexivity |].
        now apply (split_cons_other sep c (p ++ sep :: r) p (split sep r)).
Qed.

Lemma whole_token_after (sep : N) (token p r : jsstring) :
  whole_token sep token r -> whole_token sep token (p ++ sep :: r).
Proof.
  intros (Hno & l & r' & -> & Hl & Hr). split; [exact Hno |].
  exists (p ++ sep :: l), r'. split; [now rewrite <- app_assoc |]. split; [| exact Hr].
  right. destruct Hl as [-> | (l' & ->)].
  - exists p. reflexivity.
  - exists (p ++ sep :: l'). now rewrite <- app_assoc.
Qed.

(** The pieces of a split are the whole tokens of the text. *)
Lemma in_split_whole_token (sep : N) (token : jsstring) :
  forall s, In token (split sep s) <-> whole_token sep token s.
Proof.
  intros s. remember (length s) as n eqn:Hn. revert s Hn.
  induction n as [n IH] using lt_wf_ind. intros s Hn.
  destruct (split_head_tail sep s) as (p & Hp & [[-> Hs] | (r & -> & Hs)]).
  - rewrite Hs. split.
    + intros [<- | []]. split; [exact Hp |]. exists [], []. rewrite app_nil_r. auto.
    + intros (Hno & l & r & Heq & Hl & Hr). left.
      destruct Hl as [-> | (l' & ->)].
      * cbn [app] in Heq.
        destruct Hr as [-> | (r' & ->)]; [now rewrite app_nil_r in Heq |].
        exfalso. apply Hp. rewrite Heq. apply in_or_app. right. now left.
      * exfalso. apply Hp. rewrite Heq, <- app_assoc. apply in_or_app. right. cbn [app]. now left.
  - rewrite Hs. split.
    + intros [<- | Hin].
      * split; [exact Hp |]. exists [], (sep :: r). split; [reflexivity |]. split; eauto.
      * apply whole_token_after. apply (IH (length r)); [| reflexivity | exact Hin].
        subst n. rewrite length_app. cbn [length]. lia.
    + intros (Hno & l & r' & Heq & Hl & Hr).
      destruct Hl as [-> | (l' & ->)].
      * left. cbn [app] in Heq.
        destruct Hr as [-> | (r'' & ->)].
        { exfalso. apply Hno. rewrite app_nil_r in Heq. rewrite <- Heq.
          apply in_or_app. right. cbn [app]. now left. }
        (* two decompositions at a first separator *)
        clear IH Hs Hn. revert token Hno Heq.
        induction p as [| c p IHp]; intros token Hno Heq.
        -- destruct token as [| d token]; [reflexivity |].
           injection Heq as <- _. exfalso. apply Hno. now left.
        -- destruct token as [| d token].
           ++ injection Heq as -> _. exfalso. apply Hp. now left.
           ++ injection Heq as <- Heq. f_equal. apply IHp.
              ** intros Hin. apply Hp. now right.
              ** intros Hin. apply Hno. now right.
              ** exact Heq.
      * right. rewrite <- app_assoc in Heq. cbn [app] in Heq.
        (* the token lies after the first separator *)
        assert (Hsplit : exists l0, l' = p ++ l0 /\
                  (l0 = [] \/ exists l1, l0 = sep :: l1)).
        { clear IH Hs Hn Hr Hno. revert l' Heq.
          induction p as [| c p IHp]; intros l' Heq.
          - exists l'. split; [reflexivity |].
            destruct l' as [| d l']; [now left |].
            injection Heq as <- _. right. now exists l'.
          - destruct l' as [| d l'].
            + injection Heq as -> _. exfalso. apply Hp. now left.
            + injection Heq as <- Heq.
              destruct (IHp (fun Hin => Hp (or_intror Hin)) l' Heq) as (l0 & -> & Hl0).
              exists l0. auto. }
        destruct Hsplit as (l0 & -> & Hl0).
        rewrite <- app_assoc in Heq. apply app_inv_head in Heq.
        apply (IH (length r)); [subst n; rewrite length_app; cbn [length]; lia | reflexivity |].
        split; [exact Hno |].
        destruct Hl0 as [-> | (l1 & ->)].
        -- cbn [app] in Heq. injection Heq as ->.
           exists [], r'. auto.
        -- cbn [app] in Heq. injection Heq as ->.
           exists (l1 ++ [sep]), r'. rewrite <- app_assoc. split; [reflexivity |].
           split; [right; now exists l1 | exact Hr].
Qed.
End SplitFacts.

Section TrimFacts.
Import Auth.

Lemma trimStart_head (s : jsstring) (c : N) :
  head (trimStart s) = Some c -> isWhiteSpace c = false.
Proof.
  induction s as [| d s IH]; [discriminate |]. cbn [trimStart].
  destruct (isWhiteSpace d) eqn:Hd; [exact IH |].
  intros Hc. injection Hc as <-. exact Hd.
Qed.

Lemma trimStart_suffix (s : jsstring) : exists pre, s = pre ++ trimStart s.
Proof.
  induction s as [| d s (pre & IH)]; [now exists [] |]. cbn [trimStart].
  destruct (isWhiteSpace d); [| now exists []].
  exists (d :: pre). cbn [app]. now f_equal.
Qed.

Lemma trimStart_blank (s : jsstring) :
  Forall (fun c => isWhiteSpace c = true) s -> trimStart s = [].
Proof.
  induction 1 as [| d s Hd _ IH]; [reflexivity |]. cbn [trimStart]. now rewrite Hd.
Qed.

Lemma last_rev (x : jsstring) : last (rev x) = head x.
Proof. destruct x as [| c x]; [reflexivity |]. cbn [rev head]. apply last_snoc. Qed.

Lemma trim_last (s : jsstring) (c : N) : last (trim s) = Some c -> isWhiteSpace c = false.
Proof. unfold trim. rewrite last_rev. apply trimStart_head. Qed.

(** [trim s] is a piece of [s]: what is left of it after the leading white
    space, up to the trailing white space. *)
Lemma trim_middle (s : jsstring) : exists pre post, s = pre ++ trim s ++ post.
Proof.
  unfold trim. destruct (trimStart_suffix s) as (pre & Hs).
  destruct (trimStart_suffix (rev (trimStart s))) as (post & Hrev).
  exists pre, (rev post).
  rewrite <- rev_app_distr, <- Hrev, rev_involutive. exact Hs.
Qed.

Lemma trim_head (s : jsstring) (c : N) : head (trim s) = Some c -> isWhiteSpace c = false.
Proof.
  intros Hc. apply (trimStart_head s).
  unfold trim in *. destruct (trimStart_suffix (rev (trimStart s))) as (post & Hrev).
  apply (f_equal (@rev N)) in Hrev. rewrite rev_involutive, rev_app_distr in Hrev.
  rewrite Hrev. destruct (rev (trimStart (rev (trimStart s)))); [discriminate | exact Hc].
Qed.

Lemma trim_incl (s : jsstring) (c : N) : In c (trim s) -> In c s.
Proof.
  intros Hc. destruct (trim_middle s) as (pre & post & Hs). rewrite Hs.
  apply in_or_app. right. apply in_or_app. now left.
Qed.

Lemma trim_blank (s : jsstring) :
  Forall (fun c => isWhiteSpace c = true) s -> trim s = [].
Proof. intros Hs. unfold trim. now rewrite (trimStart_blank s Hs). Qed.

Lemma split_incl (sep : N) (s p : jsstring) (c : N) :
  In p (split sep s) -> In c p -> In c s.
Proof.
  intros Hp Hc. apply in_split_whole_token in Hp as (_ & l & r & -> & _).
  apply in_or_app. right. apply in_or_app. now left.
Qed.

(** X20. Every authorized tenant of the loaded configuration is a
    non-empty text without a comma that neither starts nor ends with white
    space, whatever [AUTHORIZED_TENANTS] holds. *)
Theorem authorized_tenants_are_trimmed (parseInt : jsstring -> Z -> option Z)
    (env : jsstring -> option jsstring) (tenant : jsstring) :
  In tenant (authorizedTenants (loadOAuthConfig parseInt env).1) ->
  tenant <> [] /\
  ~ In comma tenant /\
  (forall c, head tenant = Some c -> isWhiteSpace c = false) /\
  (forall c, last tenant = Some c -> isWhiteSpace c = false).
Proof.
  cbn [loadOAuthConfig fst authorizedTenants].
  destruct (env (js "AUTHORIZED_TENANTS")) as [s |]; [| intros []].
  intros Hin. apply filter_In in Hin as [Hin Htruthy].
  apply in_map_iff in Hin as (piece & <- & Hpiece).
  split; [intros Hnil; now rewrite Hnil in Htruthy |].
  split.
  - intros Hcomma. apply trim_incl in Hcomma.
    apply in_split_whole_token in Hpiece as (Hno & _). now apply Hno.
  - split; [apply trim_head | apply trim_last].
Qed.

Lemma blank_pieces (s : jsstring) :
  Forall (fun c => c = comma \/ isWhiteSpace c = true) s ->
  List.filter truthy (List.map trim (split comma s)) = [].
Proof.
  intros Hs.
  assert (Hall : Forall (fun p => trim p = []) (split comma s)).
  { apply List.Forall_forall. intros p Hp. apply trim_blank.
    apply List.Forall_forall. intros c Hc.
    pose proof (split_incl comma s p c Hp Hc) as Hcs.
    rewrite List.Forall_forall in Hs. destruct (Hs c Hcs) as [-> | Hws]; [| exact Hws].
    apply in_split_whole_token in Hp as (Hno & _). now destruct (Hno Hc). }
  induction Hall as [| p ps Hp _ IH]; [reflexivity |].
  cbn [List.map List.filter]. now rewrite Hp.
Qed.

(** X21. An [AUTHORIZED_TENANTS] that is unset, empty or made of commas and
    white space only turns the tenant restriction off: no tenant is listed,
    any tenant is allowed, and [validateTenant] lets every token through
    whose issuer is the login address of its own tenant. *)
Theorem blank_tenant_list_allows_any_tenant (parseInt : jsstring -> Z -> option Z)
    (env : jsstring -> option jsstring) :
  match env (js "AUTHORIZED_TENANTS") with
  | Some s => Forall (fun c => c = comma \/ isWhiteSpace c = true) s
  | None => True
  end ->
  let cfg := (loadOAuthConfig parseInt env).1 in
  authorizedTenants cfg = [] /\
  allowAnyTenant cfg = true /\
  (forall req claims,
     auth req = Some claims ->
     iss claims = Some (expectedIssuer (tid claims)) ->
     validateTenant cfg req = Next).
Proof.
  intros Henv cfg.
  assert (Hnone : authorizedTenants cfg = []).
  { subst cfg. cbn [loadOAuthConfig fst authorizedTenants].
    destruct (env (js "AUTHORIZED_TENANTS")) as [s |]; [now apply blank_pieces | reflexivity]. }
  assert (Hany : allowAnyTenant cfg = true).
  { subst cfg. cbn [loadOAuthConfig fst allowAnyTenant authorizedTenants] in *.
    rewrite Hnone. reflexivity. }
  split; [exact Hnone |]. split; [exact Hany |].
  intros req claims Hauth Hiss. unfold validateTenant. rewrite Hauth, Hiss, Hany.
  now rewrite bool_decide_eq_true_2.
Qed.

Lemma or_else_truthy (v : option jsstring) (d : jsstring) :
  d <> [] -> truthy (or_else v d) = true.
Proof.
  intros Hd. unfold or_else. destruct v as [s |].
  - destruct (truthy s) eqn:Hs; [exact Hs |]. destruct d; [now destruct Hd | reflexivity].
  - destruct d; [now destruct Hd | reflexivity].
Qed.

(** X22. The resource identifier is never empty: whatever the environment
    holds, the loaded configuration has a server address and a resource
    identifier that are not empty, and the metadata document names that
    identifier as its resource. *)
Theorem resource_identifier_is_never_empty (parseInt : jsstring -> Z -> option Z)
    (env : jsstring -> option jsstring) :
  let cfg := (loadOAuthConfig parseInt env).1 in
  mcpServerUrl cfg <> [] /\
  mcpResourceIdentifier cfg <> [] /\
  resource (buildProtectedResourceMetadata cfg) = mcpResourceIdentifier cfg.
Proof.
  intros cfg.
  assert (Hurl : truthy (mcpServerUrl cfg) = true).
  { subst cfg. cbn [loadOAuthConfig fst mcpServerUrl]. apply or_else_truthy.
    destruct (or_else (env (js "PORT")) (js "3001")); discriminate. }
  assert (Hid : truthy (mcpResourceIdentifier cfg) = true).
  { subst cfg. cbn [loadOAuthConfig fst mcpResourceIdentifier mcpServerUrl] in *.
    apply or_else_truthy. intros Hnil. now rewrite Hnil in Hurl. }
  split; [intros Hnil; now rewrite Hnil in Hurl |].
  split; [intros Hnil; now rewrite Hnil in Hid |].
  unfold buildProtectedResourceMetadata. cbn [resource or_else]. now rewrite Hid.
Qed.
End TrimFacts.

Section ScopeFacts.
Import Auth.

Lemma array_includes_In (a : list jsstring) (x : jsstring) :
  array_includes a x = true <-> In x a.
Proof.
  unfold array_includes. rewrite existsb_exists. split.
  - intros (y & Hy & Heq). unfold jsstring_eqb in Heq.
    apply bool_decide_eq_true_1 in Heq. now subst.
  - intros Hx. exists x. split; [exact Hx |]. unfold jsstring_eqb.
    now apply bool_decide_eq_true_2.
Qed.

Lemma requireScope_next (cfg : Config) (required : list jsstring) (req : Request) :
  requireScope cfg required req = Next <->
  exists claims scope,
    auth req = Some claims /\ In scope required /\ In scope (allPermissions claims).
Proof.
  unfold requireScope. destruct (auth req) as [claims |].
  - destruct (existsb _ required) eqn:Hsome; cbn [negb].
    + split; [intros _ | reflexivity].
      apply existsb_exists in Hsome as (scope & Hreq & Hperm).
      exists claims, scope. split; [reflexivity |]. split; [exact Hreq |].
      now apply array_includes_In.
    + split; [discriminate |].
      intros (claims' & scope & Heq & Hreq & Hperm). injection Heq as <-.
      apply not_true_iff_false in Hsome. exfalso. apply Hsome.
      apply existsb_exists. exists scope. split; [exact Hreq |].
      now apply array_includes_In.
  - split; [discriminate | intros (claims & scope & Heq & _); discriminate].
Qed.

(** X23. A scope is granted only as a whole: [requireScope] lets a request
    through exactly when it is authenticated and one of the required scopes
    is a whole space-separated token of the [scp] claim or one of the
    [roles]; an unauthenticated request gets 401, any other refusal is a
    403 that lists the required scopes. *)
Theorem scope_is_granted_as_a_whole_token (cfg : Config) (required : list jsstring)
    (req : Request) :
  (requireScope cfg required req = Next <->
   exists claims scope,
     auth req = Some claims /\ In scope required /\
     ((exists s, scp claims = Some s /\ whole_token space scope s) \/
      (exists rs, roles claims = Some rs /\ In scope rs))) /\
  (auth req = None ->
   exists d, requireScope cfg required req = Deny d /\ status d = 401) /\
  (forall d, requireScope cfg required req = Deny d -> auth req <> None ->
     status d = 403 /\ required_scopes d = Some required).
Proof.
  split; [| split].
  - rewrite requireScope_next. split.
    + intros (claims & scope & Hauth & Hreq & Hperm).
      exists claims, scope. split; [exact Hauth |]. split; [exact Hreq |].
      unfold allPermissions in Hperm. apply in_app_or in Hperm as [Hscp | Hroles].
      * left. destruct (scp claims) as [s |]; [| destruct Hscp].
        exists s. split; [reflexivity |]. now apply in_split_whole_token.
      * right. destruct (roles claims) as [rs |]; [| destruct Hroles].
        exists rs. auto.
    + intros (claims & scope & Hauth & Hreq & Hperm).
      exists claims, scope. split; [exact Hauth |]. split; [exact Hreq |].
      unfold allPermissions. apply in_or_app.
      destruct Hperm as [(s & -> & Htoken) | (rs & -> & Hin)].
      * left. now apply in_split_whole_token.
      * right. exact Hin.
  - intros Hauth. unfold requireScope. rewrite Hauth. eexists. split; reflexivity.
  - intros d Hdeny Hauth. unfold requireScope in Hdeny.
    destruct (auth req) as [claims |]; [| now destruct Hauth].
    destruct (negb _); [| discriminate]. injection Hdeny as <-. split; reflexivity.
Qed.

(** X24. A token that passes a scope check is a delegated token or an
    application token: when no required scope is the empty text, a request
    let through by [requireScope] is let through by [requireDelegatedToken]
    or by [requireApplicationToken]. *)
Theorem scoped_token_has_a_type (cfg : Config) (required : list jsstring) (req : Request) :
  ~ In [] required ->
  requireScope cfg required req = Next ->
  requireDelegatedToken req = Next \/ requireApplicationToken req = Next.
Proof.
  intros Hnonempty Hnext.
  apply requireScope_next in Hnext as (claims & scope & Hauth & Hreq & Hperm).
  unfold allPermissions in Hperm. apply in_app_or in Hperm as [Hscp | Hroles].
  - left. unfold requireDelegatedToken. rewrite Hauth. cbn [mbind option_bind].
    destruct (scp claims) as [s |]; [| destruct Hscp].
    destruct s as [| c s]; [| reflexivity].
    cbn in Hscp. destruct Hscp as [<- | []]. now destruct Hnonempty.
  - right. unfold requireApplicationToken. rewrite Hauth. cbn [mbind option_bind].
    destruct (roles claims) as [[| r rs] |]; [destruct Hroles | reflexivity | destruct Hroles].
Qed.

Lemma bearerAuth_denies (cfg : Config) (jwtCheck : Request -> Exn + Request)
    (req : Request) (err : Exn) :
  jwtCheck req = inl err -> exists d, (bearerAuth cfg jwtCheck req).1 = Deny d.
Proof.
  intros Hjwt. unfold bearerAuth. rewrite Hjwt. cbn [fst]. unfold unauthorized.
  destruct (code_is err "credentials_required" || no_authorization req); [now eexists |].
  destruct (code_is err "ERR_JWT_EXPIRED" || includes (exn_message err) (js "expired"));
    [now eexists |].
  destruct (jsstring_eqb (exn_name err) (js "UnauthorizedError") ||
            code_is err "ERR_JWT_INVALID" || code_is err "ERR_JWS_INVALID"); now eexists.
Qed.

(** X25. Every failure of the token check is answered by [bearerAuth]
    itself, with a 401 that carries a [WWW-Authenticate] header pointing at
    the protected-resource metadata; a request without an [Authorization]
    header is always told that the header is required, whatever the error. *)
Theorem token_failure_is_a_401_with_challenge (cfg : Config)
    (jwtCheck : Request -> Exn + Request) (req : Request) (err : Exn) :
  jwtCheck req = inl err ->
  exists d header,
    (bearerAuth cfg jwtCheck req).1 = Deny d /\
    status d = 401 /\
    www_authenticate d = Some header /\
    starts_with (resource_metadata_challenge (mcpServerUrl cfg)) header = true /\
    (no_authorization req = true ->
     error d = js "invalid_request" /\
     error_description d = js "Authorization header is required").
Proof.
  intros Hjwt. unfold bearerAuth. rewrite Hjwt. cbn [fst].
  destruct (code_is err "credentials_required" || no_authorization req) eqn:Hcred.
  { eexists _, _. split; [reflexivity |]. split; [reflexivity |]. split; [reflexivity |].
    split; [exact (challenge_prefix (for_errors cfg) None None) |]. intros _. split; reflexivity. }
  apply orb_false_iff in Hcred as [_ Hauth].
  destruct (code_is err "ERR_JWT_EXPIRED" || includes (exn_message err) (js "expired")).
  { eexists _, _. split; [reflexivity |]. split; [reflexivity |]. split; [reflexivity |].
    split; [exact (challenge_prefix (for_errors cfg) (Some (js "invalid_token"))
                     (Some (js "Token expired"))) |].
    intros Hno. congruence. }
  destruct (jsstring_eqb (exn_name err) (js "UnauthorizedError") ||
            code_is err "ERR_JWT_INVALID" || code_is err "ERR_JWS_INVALID").
  { eexists _, _. split; [reflexivity |]. split; [reflexivity |]. split; [reflexivity |].
    split; [exact (challenge_prefix (for_errors cfg) (Some (js "invalid_token")) None) |].
    intros Hno. congruence. }
  eexists _, _. split; [reflexivity |]. split; [reflexivity |]. split; [reflexivity |].
  split; [exact (challenge_prefix (for_errors cfg) (Some (js "invalid_token")) None) |].
  intros Hno. congruence.
Qed.

(** X26. With OAuth enabled a request reaches a protected route exactly
    when it is within the rate limit, the token check succeeded and left
    claims on the request, the issuer is the login address of the token's
    tenant, the tenant is allowed, and the token holds [mcp:tools] or
    [Mcp.Execute.All] among its scopes and roles. *)
Theorem protected_route_needs_token_tenant_and_scope (cfg : Config)
    (within_limit : jsstring -> bool) (jwtCheck : Request -> Exn + Request) (req : Request) :
  oauthEnabled cfg = true ->
  ((protectedMiddleware cfg within_limit jwtCheck req).1 = Next <->
   within_limit (keyGenerator req) = true /\
   exists req' claims scope,
     jwtCheck req = inr req' /\
     auth req' = Some claims /\
     iss claims = Some (expectedIssuer (tid claims)) /\
     (allowAnyTenant cfg = true \/
      exists t, tid claims = Some t /\ In t (authorizedTenants cfg)) /\
     In scope MCP_TOOL_SCOPES /\
     In scope (allPermissions claims)).
Proof.
  intros Henabled. unfold protectedMiddleware, apiLimiter. rewrite Henabled.
  destruct (within_limit (keyGenerator req)); cbn [too_many_requests fst].
  2:{ split; [discriminate | intros [Hlim _]; discriminate]. }
  unfold bearerAuth.
  destruct (jwtCheck req) as [err | req'] eqn:Hjwt.
  { assert (Hdeny : exists d, (bearerAuth cfg jwtCheck req).1 = Deny d).
    { now apply (bearerAuth_denies cfg jwtCheck req err). }
    unfold bearerAuth in Hdeny. rewrite Hjwt in Hdeny. cbn [fst] in Hdeny.
    destruct Hdeny as [d ->]. cbn [fst].
    split; [discriminate | intros (_ & r & c & s & Heq & _); discriminate]. }
  unfold validateTenant.
  destruct (auth req') as [claims |] eqn:Hauth.
  2:{ cbn [fst]. unfold requireScope. rewrite Hauth.
      split; [discriminate | intros (_ & r & c & s & Heq & Hc & _)].
      injection Heq as <-. congruence. }
  destruct (bool_decide (iss claims = Some (expectedIssuer (tid claims)))) eqn:Hiss;
    cbn [negb].
  2:{ cbn [fst]. split; [discriminate | intros (_ & r & c & s & Heq & Hc & Hi & _)].
      injection Heq as <-. rewrite Hauth in Hc. injection Hc as <-.
      apply bool_decide_eq_false_1 in Hiss. now destruct Hiss. }
  apply bool_decide_eq_true_1 in Hiss.
  destruct (negb (allowAnyTenant cfg) && negb _) eqn:Htenant; cbn [fst].
  { split; [discriminate | intros (_ & r & c & s & Heq & Hc & _ & Ht & _)].
    injection Heq as <-. rewrite Hauth in Hc. injection Hc as <-.
    apply andb_true_iff in Htenant as [Hany Hlisted].
    apply negb_true_iff in Hany, Hlisted.
    destruct Ht as [Ht | (t & Htid & Hin)]; [congruence |].
    rewrite Htid in Hlisted. apply array_includes_In in Hin. congruence. }
  rewrite requireScope_next. split.
  - intros (claims' & scope & Hauth' & Hreq & Hperm).
    rewrite Hauth in Hauth'. injection Hauth' as <-.
    split; [reflexivity |]. exists req', claims, scope.
    split; [reflexivity |]. split; [exact Hauth |]. split; [exact Hiss |].
    split; [| split; assumption].
    apply andb_false_iff in Htenant as [Hany | Hlisted].
    + left. now apply negb_false_iff in Hany.
    + right. apply negb_false_iff in Hlisted.
      destruct (tid claims) as [t |]; [| discriminate].
      exists t. split; [reflexivity |]. now apply array_includes_In.
  - intros (_ & r & c & scope & Heq & Hc & _ & _ & Hreq & Hperm).
    injection Heq as <-. exists c, scope. auto.
Qed.
End ScopeFacts.

Section TenantFacts.
Import Auth.

(** X27. In a single-tenant deployment only the home tenant gets through:
    a token whose issuer is the one the token check is configured with
    passes [validateTenant] only if its tenant is the configured tenant and
    that tenant is itself among the authorized tenants; the metadata
    document advertises that same issuer. *)
Theorem single_tenant_admits_only_the_home_tenant (cfg : Config) (req : Request)
    (claims : Claims) :
  allowAnyTenant cfg = false ->
  auth req = Some claims ->
  iss claims = issuer (createJwtCheck cfg) ->
  validateTenant cfg req = Next ->
  tid claims = Some (entraTenantId cfg) /\
  In (entraTenantId cfg) (authorizedTenants cfg) /\
  authorization_servers (buildProtectedResourceMetadata cfg) =
    [expectedIssuer (Some (entraTenantId cfg))].
Proof.
  intros Hany Hauth Hiss Hnext.
  unfold createJwtCheck in Hiss. cbn [issuer] in Hiss. rewrite Hany in Hiss.
  unfold validateTenant in Hnext. rewrite Hauth, Hany in Hnext. cbn [negb andb] in Hnext.
  destruct (bool_decide (iss claims = Some (expectedIssuer (tid claims)))) eqn:Hexp;
    cbn [negb] in Hnext; [| discriminate].
  apply bool_decide_eq_true_1 in Hexp. rewrite Hiss in Hexp.
  unfold expectedIssuer in Hexp.
  assert (Htid : entraTenantId cfg = template (tid claims)).
  { assert (Hbody : login ++ entraTenantId cfg ++ js "/v2.0" =
                    login ++ template (tid claims) ++ js "/v2.0") by congruence.
    apply app_inv_head in Hbody. now apply app_inv_tail in Hbody. }
  clear Hexp. rename Htid into Hexp.
  destruct (tid claims) as [t |]; [| discriminate].
  cbn [template default from_option id] in Hexp. subst t.
  destruct (array_includes (authorizedTenants cfg) (entraTenantId cfg)) eqn:Hin;
    [| discriminate].
  split; [reflexivity |]. split; [now apply array_includes_In |].
  unfold buildProtectedResourceMetadata. cbn [authorization_servers]. now rewrite Hany.
Qed.

(** X28. OAuth is switched off by [OAUTH_ENABLED=false] and by nothing
    else: any other value leaves it on, and once it is off the protected
    routes are guarded by the rate limit alone, the token check is not
    consulted and the request reaches the route as it came. *)
Theorem only_false_switches_oauth_off (parseInt : jsstring -> Z -> option Z)
    (env : jsstring -> option jsstring) :
  let cfg := (loadOAuthConfig parseInt env).1 in
  (oauthEnabled cfg = false <-> env (js "OAUTH_ENABLED") = Some (js "false")) /\
  (oauthEnabled cfg = false ->
   forall within_limit jwtCheck req,
     protectedMiddleware cfg within_limit jwtCheck req =
       (if within_limit (keyGenerator req) then Next else too_many_requests, req)).
Proof.
  intros cfg. split.
  - subst cfg. cbn [loadOAuthConfig fst oauthEnabled]. rewrite negb_false_iff.
    apply bool_decide_eq_true.
  - intros Hoff within_limit jwtCheck req. unfold protectedMiddleware, apiLimiter.
    rewrite Hoff. now destruct (within_limit (keyGenerator req)).
Qed.
End TenantFacts.

Section RegistrationFacts.
Context {World : Type} `{Host World}.

(** X29. The registration looks at nothing but the presence of the
    [sampling] capability: on a server without the tool, the tool is there
    afterwards exactly when the client has declared [sampling], with or
    without its [tools] part, and every other tool of the server is left as
    it was. *)
Theorem registration_follows_the_sampling_capability (server : McpServer) :
  registeredTools server !! tool_name_ = None ->
  (is_Some (registeredTools (registerTriggerEnhancedSamplingTool server) !! tool_name_) <->
   exists caps s, getClientCapabilities server = Some caps /\ sampling caps = Some s) /\
  (forall name, name <> tool_name_ ->
     registeredTools (registerTriggerEnhancedSamplingTool server) !! name =
       registeredTools server !! name).
Proof.
  intros Hfree. unfold registerTriggerEnhancedSamplingTool. cbv zeta.
  destruct (getClientCapabilities server) as [caps |]; cbn [from_option id].
  - destruct (sampling caps) as [s |] eqn:Hs.
    + rewrite bool_decide_eq_true_2 by discriminate.
      cbn [negb registerTool registeredTools]. split.
      * split; [intros _; now exists caps, s |].
        intros _. rewrite lookup_insert_eq. eauto.
      * intros name Hname. now rewrite lookup_insert_ne.
    + rewrite bool_decide_eq_false_2 by (intros Hne; now destruct Hne).
      cbn [negb]. split; [| reflexivity].
      unfold Eff in *. rewrite Hfree. split.
      * intros [x Hx]. discriminate.
      * intros (caps' & s & Heq & Hs'). injection Heq as <-. congruence.
  - cbn [sampling]. rewrite bool_decide_eq_false_2 by (intros Hne; now destruct Hne).
    cbn [negb]. split; [| reflexivity].
    unfold Eff in *. rewrite Hfree. split.
    + intros [x Hx]. discriminate.
    + intros (caps' & s & Heq & _). discriminate.
Qed.
End RegistrationFacts.

(** ** The properties above on the scripted counterparts *)

Lemma report_has_one_iteration_per_request_witness :
  let results := iterationResults Cases.two_rounds_state in
  handler (Scenario.args 3) (start Cases.two_round_script) =
    (Returned {| text := report (Scenario.args 3) results; isError := None |},
     Cases.two_rounds.2) /\
  length results = length (sampling_requests (log Cases.two_rounds.2)) /\
  iteration <$> results = seqZ 1 (Z.of_nat (length results)) /\
  (forall (i : nat) r, results !! i = Some r -> (S i < length results)%nat ->
     ran_tools r = true /\ textResponse r = None) /\
  (forall r, last results = Some r -> ran_tools r = false ->
     exists t, textResponse r = Some t).
Proof.
  apply (report_has_one_iteration_per_request (Scenario.args 3) Cases.two_round_script
           Cases.two_rounds_state Cases.two_rounds.2); reflexivity.
Defined.

Lemma requests_carry_a_growing_history_witness :
  messages (build_request (Scenario.args 3) 1 (conversationHistory Cases.two_rounds_state)) =
    take (1 + 2 * 1) (conversationHistory Cases.two_rounds_state) /\
  length (messages (build_request (Scenario.args 3) 1
                      (conversationHistory Cases.two_rounds_state))) = (1 + 2 * 1)%nat /\
  head (messages (build_request (Scenario.args 3) 1
                    (conversationHistory Cases.two_rounds_state))) =
    Some (seed (Scenario.args 3)).
Proof.
  apply (requests_carry_a_growing_history (Scenario.args 3) Cases.two_round_script
           Cases.two_rounds_state Cases.two_rounds.2 1); reflexivity.
Defined.


Lemma handler_throws_witness :
  exists request schema w,
    sendRequest request schema w =
      (inl Scenario.script_exhausted,
       world (handler (Scenario.args 2) (start [Scenario.wants_tools])).2) /\
    last (sampling_requests (log (handler (Scenario.args 2) (start [Scenario.wants_tools])).2))
      = Some request.
Proof.
  apply (handler_throws_only_what_the_client_threw (Scenario.args 2)
           (start [Scenario.wants_tools])
           (handler (Scenario.args 2) (start [Scenario.wants_tools])).2
           Scenario.script_exhausted).
  reflexivity.
Defined.

Lemma other_results_end_the_run_witness :
  let st := {| conversationHistory := [seed (Scenario.args 3)]; iterationResults := [] |} in
  loopBody (Scenario.args 3) 0 st (start [Cases.stops_with_tools_inside]) =
    (Returned (Break
       {| conversationHistory := conversationHistory st;
          iterationResults := iterationResults st ++
            [{| iteration := 0 + 1;
                ir_stopReason := stopReason Cases.stops_with_tools_inside;
                toolCalls := None;
                textResponse :=
                  Some (extractText (result_content Cases.stops_with_tools_inside)) |}] |}),
     {| world := [];
        log := log (start [Cases.stops_with_tools_inside]) ++
               [EvSampling (build_request (Scenario.args 3) 0 (conversationHistory st))
                  (result_schema (Scenario.args 3) 0)] |}).
Proof.
  apply (other_results_end_the_run (Scenario.args 3) 0
           {| conversationHistory := [seed (Scenario.args 3)]; iterationResults := [] |}
           (start [Cases.stops_with_tools_inside]) Cases.stops_with_tools_inside []);
    [reflexivity | left; discriminate].
Defined.

Lemma basic_sampling_witness :
  handler Cases.basic_args (start [Scenario.final_answer]) =
    (Returned {| text := js "Sampling Result (no tools):" ++ nl ++
                         JSON_stringify_result Scenario.final_answer;
                 isError := None |},
     {| world := [];
        log := [EvSampling
                  {| messages := [seed Cases.basic_args];
                     systemPrompt :=
                       or_else (args_systemPrompt Cases.basic_args)
                         (js "You are a helpful assistant.");
                     maxTokens := args_maxTokens Cases.basic_args;
                     tools := None; toolChoice := None |}
                  CreateMessageResultSchema] |}).
Proof.
  apply (basic_sampling_sends_one_request Cases.basic_args [Scenario.final_answer] []
           Scenario.final_answer); reflexivity.
Defined.

Lemma calculate_without_expression_witness :
  executeMockTool (js "calculate")
    [(js "expression", JObj [(js "toString", JNum 1)])]
    (start [Scenario.final_answer]) =
    (Returned (js "Error: Could not evaluate expression"),
     start [Scenario.final_answer]).
Proof.
  apply (calculate_without_expression
           [(js "expression", JObj [(js "toString", JNum 1)])]
           (start [Scenario.final_answer])).
  exact I.
Defined.

Lemma weather_report_witness :
  exists (t h : Z) (c : jsstring) (m' : Machine (list CreateMessageResult)),
    executeMockTool (js "get_weather") [(js "city", JStr (js "Paris"))]
      (start [Scenario.final_answer]) =
      (Returned (JSON_stringify (JObj
         (match get_prop [(js "city", JStr (js "Paris"))] (js "city") with
          | Some city => [(js "city", city)]
          | None => []
          end ++
          [ (js "temperature", JNum (inject_Z t));
            (js "conditions", JStr c);
            (js "humidity", JNum (inject_Z h)) ]))), m') /\
    5 <= t <= 34 /\ In c conditions /\ 40 <= h <= 99 /\
    log m' = log (start [Scenario.final_answer]).
Proof.
  apply (weather_report_is_in_range [(js "city", JStr (js "Paris"))]
           (start [Scenario.final_answer])).
  intros w. split; [unfold Qle | unfold Qlt]; cbn; lia.
Defined.

Lemma known_session_reaches_its_transport_witness :
  let req := Cases.with_session Scenario.minted in
  let served := StreamableHttp.route StreamableHttp.GET req Cases.one_session true in
  served.1.2 =
    (StreamableHttp.run_transport Cases.live_transport req Cases.one_session true).1.2 /\
  served.2 =
    (StreamableHttp.run_transport Cases.live_transport req Cases.one_session true).2 /\
  (exists evs,
     StreamableHttp.trace served.1.2 =
       StreamableHttp.trace Cases.one_session ++
       StreamableHttp.EvHandleRequest (StreamableHttp.handle Cases.live_transport) :: evs) /\
  StreamableHttp.response served.1.1 <> Some (StreamableHttp.bad_request req).
Proof.
  apply (known_session_reaches_its_transport StreamableHttp.GET
           (Cases.with_session Scenario.minted) Cases.one_session true
           Scenario.minted Cases.live_transport);
    [reflexivity | discriminate | reflexivity].
Defined.

Lemma initialize_registers_the_session_witness :
  let served := StreamableHttp.post_mcp Cases.initialize StreamableHttp.initial tt in
  StreamableHttp.transports served.1.2 =
    <[Scenario.minted :=
        {| StreamableHttp.handle := 0; StreamableHttp.sessionId := Some Scenario.minted |}]>
      (StreamableHttp.transports StreamableHttp.initial) /\
  StreamableHttp.next_handle served.1.2 = 1%nat /\
  StreamableHttp.trace served.1.2 =
    StreamableHttp.trace StreamableHttp.initial ++
    [StreamableHttp.EvCreateServer; StreamableHttp.EvNewTransport 0;
     StreamableHttp.EvConnected 0; StreamableHttp.EvHandleRequest 0;
     StreamableHttp.EvRegistered Scenario.minted 0] /\
  served.1.1 =
    StreamableHttp.guarded "Internal server error" Cases.initialize
      (StreamableHttp.handleRequest
         {| StreamableHttp.handle := 0; StreamableHttp.sessionId := None |}
         Cases.initialize tt).1 /\
  served.2 = tt.
Proof.
  apply (initialize_registers_the_session Cases.initialize StreamableHttp.initial tt tt tt
           (StreamableHttp.handleRequest
              {| StreamableHttp.handle := 0; StreamableHttp.sessionId := None |}
              Cases.initialize tt).1
           Scenario.minted); reflexivity.
Defined.

Lemma failed_connect_registers_nothing_witness :
  let served := StreamableHttp.post_mcp Cases.initialize StreamableHttp.initial 0%nat in
  served.1.1 =
    {| StreamableHttp.response :=
         Some (StreamableHttp.Json 500
                 {| StreamableHttp.jsonrpc := js "2.0"; StreamableHttp.code := -32603;
                    StreamableHttp.message := js "Internal server error";
                    StreamableHttp.id := StreamableHttp.body_id Cases.initialize |});
       StreamableHttp.rejected := None |} /\
  StreamableHttp.transports served.1.2 = StreamableHttp.transports StreamableHttp.initial /\
  StreamableHttp.trace served.1.2 =
    StreamableHttp.trace StreamableHttp.initial ++
    [StreamableHttp.EvCreateServer; StreamableHttp.EvNewTransport 0] /\
  served.2 = 1%nat.
Proof.
  apply (failed_connect_registers_nothing Cases.initialize StreamableHttp.initial 0%nat 1%nat
           Cases.connection_refused); reflexivity.
Defined.

Lemma delete_ends_the_session_witness :
  let req := Cases.with_session Scenario.minted in
  let served := StreamableHttp.delete_mcp req Cases.one_session true in
  StreamableHttp.transports served.1.2 =
    delete Scenario.minted (StreamableHttp.transports Cases.one_session) /\
  StreamableHttp.trace served.1.2 =
    StreamableHttp.trace Cases.one_session ++
    [StreamableHttp.EvHandleRequest 0; StreamableHttp.EvRemoved Scenario.minted;
     StreamableHttp.EvCleanup Scenario.minted] /\
  (forall (method : StreamableHttp.Method) (again : StreamableHttp.Request) (w2 : bool),
     StreamableHttp.mcp_session_id again = Some Scenario.minted ->
     StreamableHttp.route method again served.1.2 w2 =
       ({| StreamableHttp.response := Some (StreamableHttp.bad_request again);
           StreamableHttp.rejected := None |}, served.1.2, w2)).
Proof.
  apply (delete_ends_the_session (Cases.with_session Scenario.minted) Cases.one_session
           true true Scenario.minted Cases.live_transport
           (StreamableHttp.handleRequest Cases.live_transport
              (Cases.with_session Scenario.minted) true).1);
    first [reflexivity | discriminate].
Defined.

Lemma other_sessions_are_untouched_witness :
  StreamableHttp.transports
    (StreamableHttp.route StreamableHttp.DELETE (Cases.with_session Scenario.minted)
       Cases.two_sessions true).1.2 !! js "9c41" =
  StreamableHttp.transports Cases.two_sessions !! js "9c41".
Proof.
  apply (other_sessions_are_untouched StreamableHttp.DELETE
           (Cases.with_session Scenario.minted) Cases.two_sessions true true
           Scenario.minted (js "9c41") Cases.live_transport
           (StreamableHttp.handleRequest Cases.live_transport
              (Cases.with_session Scenario.minted) true).1);
    first [reflexivity | discriminate].
Defined.

Lemma open_then_delete_restores_the_map_witness :
  StreamableHttp.transports
    (StreamableHttp.delete_mcp (Cases.with_session Scenario.minted)
       (StreamableHttp.post_mcp Cases.initialize StreamableHttp.initial true).1.2 true).1.2 =
  StreamableHttp.transports StreamableHttp.initial.
Proof.
  apply (open_then_delete_restores_the_map Cases.initialize
           (Cases.with_session Scenario.minted) StreamableHttp.initial
           true true true true true
           (StreamableHttp.handleRequest
              {| StreamableHttp.handle := 0; StreamableHttp.sessionId := None |}
              Cases.initialize true).1
           (StreamableHttp.handleRequest
              {| StreamableHttp.handle := 0;
                 StreamableHttp.sessionId := Some Scenario.minted |}
              (Cases.with_session Scenario.minted) true).1
           Scenario.minted);
    first [reflexivity | discriminate].
Defined.

Lemma sse_session_lives_until_close_witness :
  let t := {| Sse.handle := 0; Sse.sessionId := Scenario.minted |} in
  let opened := (Sse.get_sse Scenario.sse_first_connect Sse.initial tt).1.2 in
  (Sse.get_sse Scenario.sse_first_connect Sse.initial tt).1.1 =
    {| Sse.response := Some (Sse.Stream Scenario.minted); Sse.rejected := None |} /\
  Sse.post_message Cases.sse_message opened tt =
    (match Sse.handlePostMessage t Cases.sse_message tt with
     | (inr r, w4) => ({| Sse.response := Some (Sse.Sent r); Sse.rejected := None |}, opened, w4)
     | (inl e, w4) => ({| Sse.response := None; Sse.rejected := Some e |}, opened, w4)
     end) /\
  Sse.transports (Sse.onclose t opened) = Sse.transports Sse.initial /\
  Sse.post_message Cases.sse_message (Sse.onclose t opened) tt =
    ({| Sse.response :=
          Some (Sse.InvalidSession 400 (js "invalid_session")
                  (js "No valid session found for the provided session ID"));
        Sse.rejected := None |}, Sse.onclose t opened, tt).
Proof.
  apply (sse_session_lives_until_close Scenario.sse_first_connect Cases.sse_message
           Sse.initial tt tt tt tt Scenario.minted); reflexivity.
Defined.


Lemma authorized_tenants_are_trimmed_witness :
  js "fabrikam" <> [] /\
  ~ In Auth.comma (js "fabrikam") /\
  (forall c, head (js "fabrikam") = Some c -> isWhiteSpace c = false) /\
  (forall c, last (js "fabrikam") = Some c -> isWhiteSpace c = false).
Proof.
  apply (authorized_tenants_are_trimmed Cases.no_parse Cases.listed_env (js "fabrikam")).
  vm_compute. right. left. reflexivity.
Defined.

Lemma blank_tenant_list_witness :
  let cfg := (Auth.loadOAuthConfig Cases.no_parse Cases.blank_env).1 in
  Auth.authorizedTenants cfg = [] /\
  Auth.allowAnyTenant cfg = true /\
  (forall req claims,
     Auth.auth req = Some claims ->
     Auth.iss claims = Some (Auth.expectedIssuer (Auth.tid claims)) ->
     Auth.validateTenant cfg req = Auth.Next).
Proof.
  apply (blank_tenant_list_allows_any_tenant Cases.no_parse Cases.blank_env).
  vm_compute. repeat constructor; (left; reflexivity) || (right; reflexivity).
Defined.

Lemma scoped_token_has_a_type_witness :
  Auth.requireDelegatedToken Cases.authenticated = Auth.Next \/
  Auth.requireApplicationToken Cases.authenticated = Auth.Next.
Proof.
  apply (scoped_token_has_a_type Cases.listed_config Auth.MCP_TOOL_SCOPES Cases.authenticated).
  - intros [Hin | [Hin | []]]; discriminate Hin.
  - reflexivity.
Defined.

Lemma token_failure_witness :
  exists d header,
    (Auth.bearerAuth Cases.listed_config Cases.rejecting Cases.bare_request).1 = Auth.Deny d /\
    Auth.status d = 401 /\
    Auth.www_authenticate d = Some header /\
    starts_with (Auth.resource_metadata_challenge (Auth.mcpServerUrl Cases.listed_config))
      header = true /\
    (Auth.no_authorization Cases.bare_request = true ->
     Auth.error d = js "invalid_request" /\
     Auth.error_description d = js "Authorization header is required").
Proof.
  apply (token_failure_is_a_401_with_challenge Cases.listed_config Cases.rejecting
           Cases.bare_request Cases.token_expired).
  reflexivity.
Defined.

Lemma protected_route_witness :
  (Auth.protectedMiddleware Cases.listed_config Cases.unlimited Cases.accepting
     Cases.bare_request).1 = Auth.Next <->
  Cases.unlimited (Auth.keyGenerator Cases.bare_request) = true /\
  exists req' claims scope,
    Cases.accepting Cases.bare_request = inr req' /\
    Auth.auth req' = Some claims /\
    Auth.iss claims = Some (Auth.expectedIssuer (Auth.tid claims)) /\
    (Auth.allowAnyTenant Cases.listed_config = true \/
     exists t, Auth.tid claims = Some t /\ In t (Auth.authorizedTenants Cases.listed_config)) /\
    In scope Auth.MCP_TOOL_SCOPES /\
    In scope (Auth.allPermissions claims).
Proof.
  apply (protected_route_needs_token_tenant_and_scope Cases.listed_config Cases.unlimited
           Cases.accepting Cases.bare_request).
  reflexivity.
Defined.

Lemma single_tenant_witness :
  Auth.tid Cases.user_claims = Some (Auth.entraTenantId Cases.listed_config) /\
  In (Auth.entraTenantId Cases.listed_config) (Auth.authorizedTenants Cases.listed_config) /\
  Auth.authorization_servers (Auth.buildProtectedResourceMetadata Cases.listed_config) =
    [Auth.expectedIssuer (Some (Auth.entraTenantId Cases.listed_config))].
Proof.
  apply (single_tenant_admits_only_the_home_tenant Cases.listed_config Cases.authenticated
           Cases.user_claims); reflexivity.
Defined.

Lemma registration_witness :
  let server := Scenario.fresh_server (Some Scenario.sampling_without_tools) in
  (is_Some (registeredTools (registerTriggerEnhancedSamplingTool server) !! tool_name_) <->
   exists caps s, getClientCapabilities server = Some caps /\ sampling caps = Some s) /\
  (forall name, name <> tool_name_ ->
     registeredTools (registerTriggerEnhancedSamplingTool server) !! name =
       registeredTools server !! name).
Proof.
  apply (registration_follows_the_sampling_capability
           (Scenario.fresh_server (Some Scenario.sampling_without_tools))).
  reflexivity.
Defined.
